(** * Astronomy: document fields (get / set / getModified / clone / initSchema)
      and the validation cascade (documentValidate)

    A shallow embedding of [lib/modules/fields/module.js] and of the
    [documentValidate] utility, with the properties of their specification
    stated and proved over it. *)

From Stdlib Require Import String Ascii List ZArith Bool Lia PeanoNat DecimalString.
Import ListNotations.
Open Scope string_scope.
Set Warnings "-register-all".

(* ================================================================== *)
(** * Part I — [lib/modules/fields/module.js]                          *)
(* ================================================================== *)

Module Fields.

(** ** JavaScript values

    The module only ever inspects a stored value through its truthiness and
    through [===]; [EJSON.clone] additionally walks it.  Numbers other than
    [NaN] are represented by integers.  Dates, arrays and plain objects are
    reference values: each node carries the identity [id] of the JavaScript
    object it stands for, and [===] on them compares identities, not
    contents.  No function of this module writes inside a nested object, so a
    tree of identified nodes is enough (only instances are updated in place,
    and those are threaded explicitly). *)
Inductive value : Type :=
| VUndefined
| VNull
| VBool (b : bool)
| VNum (n : Z)
| VNaN
| VStr (s : string)
| VDate (id : nat) (time : Z)
| VArr (id : nat) (elems : list value)
| VObj (id : nat) (props : list (string * value)).

(** The own enumerable properties of an object, in insertion order. *)
Definition object : Type := list (string * value).

(** [!!v] *)
Definition truthy (v : value) : bool :=
  match v with
  | VUndefined | VNull | VNaN => false
  | VBool b => b
  | VNum n => negb (n =? 0)%Z
  | VStr s => negb (s =? "")
  | VDate _ _ | VArr _ _ | VObj _ _ => true
  end.

(** [a === b] *)
Definition strict_eq (a b : value) : bool :=
  match a, b with
  | VUndefined, VUndefined => true
  | VNull, VNull => true
  | VBool x, VBool y => Bool.eqb x y
  | VNum x, VNum y => (x =? y)%Z
  | VStr x, VStr y => (x =? y)
  | VDate i _, VDate j _ => (i =? j)%nat
  | VArr i _, VArr j _ => (i =? j)%nat
  | VObj i _, VObj j _ => (i =? j)%nat
  | _, _ => false
  end.

(** [_.isObject(v)] *)
Definition isObject (v : value) : bool :=
  match v with
  | VDate _ _ | VArr _ _ | VObj _ _ => true
  | _ => false
  end.

(** [_.isUndefined(v)] *)
Definition isUndefined (v : value) : bool :=
  match v with VUndefined => true | _ => false end.

(** ** Property maps *)

Section Props.
Context {A : Type}.

(** The entry stored under [k], if the object has one of its own. *)
Fixpoint lookup (o : list (string * A)) (k : string) : option A :=
  match o with
  | [] => None
  | (k', v) :: r => if k' =? k then Some v else lookup r k
  end.

(** [_.has(o, k)] *)
Definition has (o : list (string * A)) (k : string) : bool :=
  match lookup o k with Some _ => true | None => false end.

(** [o[k] = v]: an existing property keeps its place, a new one is added
    at the end. *)
Fixpoint assign (k : string) (v : A) (o : list (string * A))
  : list (string * A) :=
  match o with
  | [] => [(k, v)]
  | (k', v') :: r =>
      if k' =? k then (k, v) :: r else (k', v') :: assign k v r
  end.

(** [_.keys(o)] *)
Definition keys (o : list (string * A)) : list string := map fst o.

(** [_.contains(ks, k)] *)
Definition contains (ks : list string) (k : string) : bool :=
  existsb (String.eqb k) ks.

(** [_.omit(o, ks)]: a new object without the listed keys. *)
Definition omit (o : list (string * A)) (ks : list string)
  : list (string * A) :=
  filter (fun kv => negb (contains ks (fst kv))) o.

(** [_.pick(o, ks)]: a new object that receives, key after key, [o[k]] for
    each listed key with [k in o]: a property of [o]'s own or, failing that,
    one [o] inherits; [inherited] holds the properties [o] inherits from its
    prototype. *)
Definition pick (inherited o : list (string * A)) (ks : list string)
  : list (string * A) :=
  fold_left
    (fun copy k =>
       match lookup o k with
       | Some v => assign k v copy
       | None =>
           match lookup inherited k with
           | Some v => assign k v copy
           | None => copy
           end
       end)
    ks [].

(** [_.difference(ks, others)] *)
Definition difference (ks others : list string) : list string :=
  filter (fun k => negb (contains others k)) ks.

End Props.

(** [o[k]]: [undefined] when there is no such property.  Field names are
    taken not to collide with the members of [Object.prototype]. *)
Definition prop (o : object) (k : string) : value :=
  match lookup o k with Some v => v | None => VUndefined end.

(** The enumerable properties an object value exposes to [for ... in]. *)
Definition propsOf (v : value) : object :=
  match v with
  | VObj _ ps => ps
  | VArr _ es =>
      combine (map (fun i => NilZero.string_of_uint (Nat.to_uint i))
                   (seq 0 (length es))) es
  | _ => []
  end.

(** ** Results of calls that may throw *)

Inductive result (A : Type) : Type :=
| Return (a : A)
| Throw (err : string).
Arguments Return {A} a.
Arguments Throw {A} err.

(** ** Schemas *)

(** The constructors a field may name as its type. *)
Inductive ftype : Type :=
| TString | TNumber | TBoolean | TDate | TObject | TArray.

(** A field definition as [initSchema] writes it: [{type: ..., default: ...}].
    [type] is [None] when the definition carries no (or a null) type. *)
Record FieldDefinition : Type := mkField {
  type : option ftype;
  default : value
}.

(** A class schema with the schema of its parent class. *)
Inductive Schema : Type :=
| MkSchema (name : string)
           (_fields : list (string * FieldDefinition))
           (parentClass : option Schema).

(** Modelled from the spec: [getName] is a schema method whose file is not
    part of the sources at hand; "Schema: name, parent Schema, own fields
    map". *)
Definition getName (s : Schema) : string :=
  let 'MkSchema n _ _ := s in n.

(** Modelled from the spec: [getFields], from the same missing file; the
    schema's "own fields map (name -> FieldDefinition)". *)
Definition getFields (s : Schema) : list (string * FieldDefinition) :=
  let 'MkSchema _ fs _ := s in fs.

(** Modelled from the spec: [getParentClass], from the same missing file;
    the "parent Schema (shared reference)", absent for a root class. *)
Definition getParentClass (s : Schema) : option Schema :=
  let 'MkSchema _ _ p := s in p.

(** Modelled from the spec: [getField], from the same missing file; it
    answers from the schema's own fields map only ("field resolution and
    default lookup walk parent links until found": the walk is the
    caller's). *)
Definition getField (s : Schema) (fieldName : string)
  : option FieldDefinition :=
  lookup (getFields s) fieldName.

(** Modelled from the spec: [addField], from the same missing file, declares
    a field in the schema's own map under its name ("name -> FieldDefinition,
    insertion order significant"). *)
Definition addField (fieldName : string) (fd : FieldDefinition)
  (fs : list (string * FieldDefinition)) : list (string * FieldDefinition) :=
  assign fieldName fd fs.

(** Modelled from the spec: [addFields], from the same missing file,
    declares the fields of a definition one after the other. *)
Definition addFields (defs : list (string * FieldDefinition))
  (fs : list (string * FieldDefinition)) : list (string * FieldDefinition) :=
  fold_left (fun acc d => addField (fst d) (snd d) acc) defs fs.

(** [initSchema], as far as it builds the fields of the schema (the rest
    installs the methods below on the class prototype). *)
Definition initSchema (className : string) (parent : option Schema)
  (definition_fields : list (string * FieldDefinition)) : Schema :=
  let _fields0 := [] in
  let _fields1 := addField "_id" (mkField (Some TString) VNull) _fields0 in
  let _fields2 :=
    match parent with
    | Some _ => addField "_type" (mkField (Some TString) (VStr className))
                         _fields1
    | None => _fields1
    end in
  MkSchema className (addFields definition_fields _fields2) parent.

(** ** Instances *)

(** A document: the object identity, the schema of its constructor, the
    properties of the objects held in [this._values] and [this._modified],
    and whatever other own properties were put on the instance. *)
Record instance : Type := mkInstance {
  oid : nat;
  schema : Schema;
  _values : object;
  _modified : object;
  own : object
}.

Definition with_values (this : instance) (o : object) : instance :=
  mkInstance (oid this) (schema this) o (_modified this) (own this).

Definition with_modified (this : instance) (o : object) : instance :=
  mkInstance (oid this) (schema this) (_values this) o (own this).

Definition with_own (this : instance) (o : object) : instance :=
  mkInstance (oid this) (schema this) (_values this) (_modified this) o.

(** [initInstance(attrs)] on the object [new Class()] has just allocated. *)
Definition initInstance (id : nat) (Class : Schema) (attrs : value)
  : instance :=
  let this := mkInstance id Class [] [] [] in
  if isObject attrs then with_values this (propsOf attrs) else this.

(** ** get *)

(** The [do ... while (Class)] loop at the end of [get]: the default of the
    first class, from the instance's own upwards, that declares the field. *)
Fixpoint defaultFromChain (s : Schema) (fieldName : string) : value :=
  match getField s fieldName with
  | Some fieldDefinition => default fieldDefinition
  | None =>
      match s with
      | MkSchema _ _ (Some Class) => defaultFromChain Class fieldName
      | MkSchema _ _ None => VUndefined
      end
  end.

(** [get(fieldName)], the one-string form. *)
Definition get (this : instance) (fieldName : string) : value :=
  if (fieldName =? "_id") && negb (truthy (prop (_values this) "_id"))
  then VUndefined
  else if has (_modified this) fieldName then prop (_modified this) fieldName
  else if has (_values this) fieldName then prop (_values this) fieldName
  else defaultFromChain (schema this) fieldName.

(** [get([fieldNames])], the array form. *)
Definition get_many (this : instance) (fieldNames : list string) : object :=
  fold_left
    (fun values fieldName =>
       let value := get this fieldName in
       if (fieldName =? "_id") && negb (truthy value) then values
       else assign fieldName value values)
    fieldNames [].

Section Methods.

(** [Astronomy.Utils.convertFieldValueByType], from the utilities of the
    package: the cast of a value to a field type, which may throw. *)
Variable convertFieldValueByType : value -> ftype -> result value.

(** [cloned.save()], from the storage part of the module. *)
Variable save : instance -> instance.

(** ** set *)

(** The [do ... while (Class)] loop of [set]: the value goes through the
    type of every class of the chain that declares the field. *)
Fixpoint castThroughChain (s : Schema) (fieldName : string) (value0 : value)
  : result value :=
  let cast :=
    match getField s fieldName with
    | Some fieldDefinition =>
        match type fieldDefinition with
        | Some t => convertFieldValueByType value0 t
        | None => Return value0
        end
    | None => Return value0
    end in
  match cast with
  | Throw e => Throw e
  | Return value1 =>
      match s with
      | MkSchema _ _ (Some Class) => castThroughChain Class fieldName value1
      | MkSchema _ _ None => Return value1
      end
  end.

(** [set(fieldName, value)], the two-argument form; the instance after the
    call is returned. *)
Definition set (this : instance) (fieldName : string) (value0 : value)
  : result instance :=
  if (fieldName =? "_id") && truthy (prop (_values this) fieldName)
  then Return this
  else
    match castThroughChain (schema this) fieldName value0 with
    | Throw e => Throw e
    | Return value1 =>
        if truthy (prop (_values this) fieldName)
           && strict_eq value1 (prop (_values this) fieldName)
        then Return this
        else Return (with_modified this
                       (assign fieldName value1 (_modified this)))
    end.

(** [set({name: value, ...})], the one-object form. *)
Fixpoint set_many (this : instance) (values : object) : result instance :=
  match values with
  | [] => Return this
  | (fieldName, value0) :: rest =>
      match set this fieldName value0 with
      | Throw e => Throw e
      | Return this' => set_many this' rest
      end
  end.

(** ** getModified *)

(** The members every plain object inherits from [Object.prototype]: for
    these names [k in o] holds whatever [o] has of its own.  (['__proto__']
    is not listed: it is an accessor, and assigning through it adds no
    property to an object.) *)
Definition objectPrototype : list string :=
  ["constructor"; "hasOwnProperty"; "isPrototypeOf"; "propertyIsEnumerable";
   "toLocaleString"; "toString"; "valueOf"; "__defineGetter__";
   "__defineSetter__"; "__lookupGetter__"; "__lookupSetter__"].

(** What [getModified] stores under a key: a field value, the object
    [schema.getField] returned, or the member of [Object.prototype] of that
    name (a built-in function). *)
Inductive entry : Type :=
| EValue (v : value)
| EField (fieldDefinition : FieldDefinition)
| EMember (name : string).

(** The [do ... while (Class)] loop of [getModified]: what
    [schema.getField(missingKey)] returns in the first class of the chain
    where it is not undefined. *)
Fixpoint fieldFromChain (s : Schema) (missingKey : string)
  : option FieldDefinition :=
  match getField s missingKey with
  | Some value0 => Some value0
  | None =>
      match s with
      | MkSchema _ _ (Some Class) => fieldFromChain Class missingKey
      | MkSchema _ _ None => None
      end
  end.

Definition entries (o : object) : list (string * entry) :=
  map (fun kv => (fst kv, EValue (snd kv))) o.

(** What [this._values] inherits; it is taken to be a plain object (the
    constructor's argument "should be an object"). *)
Definition inheritedEntries : list (string * entry) :=
  map (fun k => (k, EMember k)) objectPrototype.

(** [getModified(old)] *)
Definition getModified (this : instance) (old : bool)
  : list (string * entry) :=
  if old then
    let modifiedKeys := keys (_modified this) in
    let oldValues :=
      pick inheritedEntries (entries (_values this)) modifiedKeys in
    let oldValuesKeys := keys oldValues in
    if negb (length modifiedKeys =? length oldValuesKeys)%nat then
      let missingKeys := difference modifiedKeys oldValuesKeys in
      fold_left
        (fun oldValues missingKey =>
           match fieldFromChain (schema this) missingKey with
           | Some value0 => assign missingKey (EField value0) oldValues
           | None => oldValues
           end)
        missingKeys oldValues
    else oldValues
  else entries (_modified this).

(** ** clone *)

(** A loop that rebuilds a list element by element while new objects are
    allocated: [f] receives the first unused identity and returns the next
    one with the element it built. *)
Fixpoint cloneEach {X Y : Type} (f : nat -> X -> nat * Y) (next : nat)
  (l : list X) : nat * list Y :=
  match l with
  | [] => (next, [])
  | x :: r =>
      let '(next1, y) := f next x in
      let '(next2, r') := cloneEach f next1 r in
      (next2, y :: r')
  end.

(** [EJSON.clone(v)] with [next] the first unused object identity: primitive
    values are returned as they are, a date, an array and a plain object are
    rebuilt as new objects, their elements cloned in turn.  The new
    allocation mark is returned with the copy. *)
Fixpoint EJSON_clone (next : nat) (v : value) {struct v} : nat * value :=
  match v with
  | VDate _ time => (S next, VDate next time)
  | VArr _ elems =>
      let '(next', elems') := cloneEach EJSON_clone (S next) elems in
      (next', VArr next elems')
  | VObj _ props =>
      let '(next', props') :=
        cloneEach
          (fun n (kv : string * value) =>
             let '(k, x) := kv in
             let '(n', x') := EJSON_clone n x in
             (n', (k, x')))
          (S next) props in
      (next', VObj next props')
  | _ => (next, v)
  end.

(** [cloned[k] = v] for one property copied by [_.extend(cloned, attrs)]. *)
Definition putProperty (cloned : instance) (kv : string * value)
  : instance :=
  let '(k, v) := kv in
  if k =? "_values" then with_values cloned (propsOf v)
  else if k =? "_modified" then with_modified cloned (propsOf v)
  else with_own cloned (assign k v (own cloned)).

(** [_.extend(cloned, attrs)] *)
Definition extend (cloned : instance) (attrs : value) : instance :=
  fold_left putProperty (propsOf attrs) cloned.

(** What a call of [clone] leaves behind: the new allocation mark, the
    receiver [this] as the call leaves it, and the clone it returns. *)
Record cloning : Type := mkCloning {
  mark : nat;
  receiver : instance;
  copy : instance
}.

(** [clone(attrs, save)] with [next] the first unused object identity.  No
    statement of the function assigns to [this] or to an object reachable
    from it. *)
Definition clone (next : nat) (this : instance) (attrs : value)
  (save0 : bool) : cloning :=
  let save1 := save0 || false in
  let Class := schema this in
  let cloned := initInstance next Class VUndefined in
  let '(next1, values') :=
    EJSON_clone (S (S next)) (VObj (S next) (omit (_values this) ["_id"])) in
  let cloned := with_values cloned (propsOf values') in
  let '(next2, modified') :=
    EJSON_clone (S next1) (VObj next1 (omit (_modified this) ["_id"])) in
  let cloned := with_modified cloned (propsOf modified') in
  let cloned := if isObject attrs then extend cloned attrs else cloned in
  let cloned := if save1 then save cloned else cloned in
  mkCloning next2 this cloned.

End Methods.

(** ** Object identities and contents *)

(** The identities of the objects a value is made of. *)
Fixpoint ids (v : value) : list nat :=
  match v with
  | VDate i _ => [i]
  | VArr i elems => i :: flat_map ids elems
  | VObj i props => i :: flat_map (fun kv => ids (snd kv)) props
  | _ => []
  end.

Definition objectIds (o : object) : list nat :=
  flat_map (fun kv => ids (snd kv)) o.

(** The contents of a value, identities put aside. *)
Fixpoint contents (v : value) : value :=
  match v with
  | VDate _ time => VDate 0 time
  | VArr _ elems => VArr 0 (map contents elems)
  | VObj _ props => VObj 0 (map (fun kv => (fst kv, contents (snd kv))) props)
  | _ => v
  end.

Definition objectContents (o : object) : object :=
  map (fun kv => (fst kv, contents (snd kv))) o.

(** [v'] is a copy of [v] made of objects allocated between the marks [n]
    and [n']. *)
Definition freshCopy (n : nat) (v : value) (n' : nat) (v' : value) : Prop :=
  n <= n'
  /\ contents v' = contents v
  /\ Forall (fun i => n <= i < n') (ids v').

(** ** The precedence of [get], in the words of its specification *)

(** The classes of a chain, from a class up to its root. *)
Fixpoint ancestry (s : Schema) : list Schema :=
  match s with
  | MkSchema _ _ (Some parent) => s :: ancestry parent
  | MkSchema _ _ None => [s]
  end.

(** "the field's default found by walking the parent class chain, otherwise
    nothing" *)
Definition inheritedDefault (s : Schema) (fieldName : string) : value :=
  match find (fun c => has (getFields c) fieldName) (ancestry s) with
  | Some c =>
      match lookup (getFields c) fieldName with
      | Some fd => default fd
      | None => VUndefined
      end
  | None => VUndefined
  end.

(** "the entry in the modified mapping if one exists, otherwise the entry in
    the values mapping if one exists, otherwise the field's default" *)
Definition resolved (this : instance) (fieldName : string) : value :=
  match lookup (_modified this) fieldName with
  | Some v => v
  | None =>
      match lookup (_values this) fieldName with
      | Some v => v
      | None => inheritedDefault (schema this) fieldName
      end
  end.

(** ** The casts of [set], class by class *)

(** The types under which the classes of a chain declare a field, from the
    class itself up to its root; a class that does not declare the field, or
    declares it without a type, contributes none. *)
Definition declaredTypes (s : Schema) (fieldName : string) : list ftype :=
  flat_map
    (fun c =>
       match getField c fieldName with
       | Some fd => match type fd with Some t => [t] | None => [] end
       | None => []
       end)
    (ancestry s).

(** The casts of a list of types applied one after the other, stopping at the
    first that throws. *)
Fixpoint castAll (convert : value -> ftype -> result value)
  (ts : list ftype) (v : value) : result value :=
  match ts with
  | [] => Return v
  | t :: r =>
      match convert v t with
      | Throw e => Throw e
      | Return v' => castAll convert r v'
      end
  end.

(** ** save, remove, reload *)

(** [_.without(names, name)] *)
Definition without (names : list string) (name0 : string) : list string :=
  filter (fun n => negb (n =? name0)) names.

(** [_.extend(destination, source)] on two plain objects. *)
Definition extendObject (destination source : object) : object :=
  fold_left (fun o kv => assign (fst kv) (snd kv) o) source destination.

Section Storage.

(** The state of the collections, and the callbacks a caller may pass. *)
Variable store : Type.
Variable callback : Type.

(** What the storage methods call on a Mongo collection: [insert(doc, cb)]
    returns the new id, [update({_id: id}, {$set: values}, cb)] and
    [remove({_id: id}, cb)] their result, [findOne(id, {transform: null})]
    the stored document or nothing. *)
Record Collection : Type := mkCollection {
  collInsert : store -> object -> option callback -> store * value;
  collUpdate : store -> value -> object -> option callback -> store * value;
  collRemove : store -> value -> option callback -> store * value;
  collFindOne : store -> value -> option object
}.

(** [schema.getCollection()], from the storage part of the schema. *)
Variable getCollection : Schema -> option Collection.

(** [schema.triggerEvent(name, this, true)], from the events module: the
    handlers of the schema run on the document, which they may change. *)
Variable triggerEvent : Schema -> string -> instance -> instance.

(** [schema.getFieldsNames(true)], from the schema file of the module: the
    names of the fields of the class and of its ancestors. *)
Variable getFieldsNames : Schema -> list string.

(** How a storage method leaves the world: the collections, the document,
    and what it returns. *)
Record outcome : Type := mkOutcome {
  collections : store;
  document : instance;
  returned : value
}.

(** [get()], the form without argument. *)
Definition get_all (this : instance) : object :=
  get_many this (getFieldsNames (schema this)).

(** [toJSON()] *)
Definition toJSON (this : instance) : object :=
  get_many this (getFieldsNames (schema this)).

(** The values [save] sends to the collection, from [var values = update ?
    this.getModified() : this.get()] to [values = _.pick(values, fields)]
    ([getModified()] without argument returns [this._modified]); [schema0]
    is the schema read when [save] starts.  The names of the fields of a
    class are taken not to be members of [Object.prototype], so that
    [values] has nothing to give for them but its own properties. *)
Definition valuesToSave (schema0 : Schema) (this : instance) (update : bool)
  : object :=
  let values := if update then _modified this else get_all this in
  let fields := getFieldsNames schema0 in
  let fields :=
    if negb (truthy (prop values "_id")) || update
    then without fields "_id"
    else fields in
  pick [] values fields.

(** [save(callback)] *)
Definition save (st : store) (this : instance) (cb : option callback)
  : result outcome :=
  let schema0 := schema this in
  match getCollection schema0 with
  | None => Throw "There is no collection to save to"
  | Some Coll =>
      let update := truthy (prop (_values this) "_id") in
      let this := triggerEvent schema0 "beforeSave" this in
      let this :=
        if update then triggerEvent schema0 "beforeUpdate" this
        else triggerEvent schema0 "beforeInsert" this in
      let values := valuesToSave schema0 this update in
      if (length values =? 0)%nat then Return (mkOutcome st this (VBool false))
      else
        let '(st', result, this) :=
          if update then
            let '(st', result) :=
              collUpdate Coll st (prop (_values this) "_id") values cb in
            (st', result, this)
          else
            let '(st', result) := collInsert Coll st values cb in
            (st', result,
             with_values this (assign "_id" result (_values this))) in
        let this :=
          if update then triggerEvent schema0 "afterUpdate" this
          else triggerEvent schema0 "afterInsert" this in
        let this := triggerEvent schema0 "afterSave" this in
        let this := with_values this (extendObject (_values this) values) in
        let this := with_modified this [] in
        Return (mkOutcome st' this result)
  end.

(** [remove(callback)] *)
Definition remove (st : store) (this : instance) (cb : option callback)
  : result outcome :=
  let schema0 := schema this in
  match getCollection schema0 with
  | None => Throw "There is no collection to remove from"
  | Some Coll =>
      if negb (truthy (prop (_values this) "_id"))
      then Return (mkOutcome st this VUndefined)
      else
        let this := triggerEvent schema0 "beforeRemove" this in
        let '(st', result) :=
          collRemove Coll st (prop (_values this) "_id") cb in
        let this := triggerEvent schema0 "afterRemove" this in
        let this := with_values this (assign "_id" VNull (_values this)) in
        Return (mkOutcome st' this result)
  end.

(** [reload()] *)
Definition reload (st : store) (this : instance) : result outcome :=
  match getCollection (schema this) with
  | None => Throw "There is no collection to reload document from"
  | Some Coll =>
      if truthy (prop (_values this) "_id") then
        let this :=
          with_values this
            (match collFindOne Coll st (prop (_values this) "_id") with
             | Some found => found
             | None => _values this
             end) in
        let this := with_modified this [] in
        Return (mkOutcome st this VUndefined)
      else Return (mkOutcome st this VUndefined)
  end.

End Storage.

Arguments mkCollection {store callback}.
Arguments collInsert {store callback}.
Arguments collUpdate {store callback}.
Arguments collRemove {store callback}.
Arguments collFindOne {store callback}.
Arguments mkOutcome {store}.
Arguments collections {store}.
Arguments document {store}.
Arguments returned {store}.
Arguments save {store callback}.
Arguments remove {store callback}.
Arguments reload {store callback}.

(** ** Sample classes and documents *)

Module Sample.

(** A converter for values that already have the type of their field. *)
Definition alreadyTyped (v : value) (t : ftype) : result value := Return v.

Definition notSaved (this : instance) : instance := this.

Definition Post : Schema :=
  initSchema "Post" None
    [("title", mkField (Some TString) (VStr "untitled"));
     ("votes", mkField (Some TNumber) (VNum 0))].

Definition Article : Schema :=
  initSchema "Article" (Some Post)
    [("body", mkField (Some TString) VNull)].

(** [new Post()] *)
Definition draft : instance := initInstance 1 Post VUndefined.

(** [new Post({_id: "p1", title: "Hello", votes: 0, tags: [...]})], a
    document as loaded from its collection. *)
Definition stored : instance :=
  initInstance 1 Post
    (VObj 2 [("_id", VStr "p1"); ("title", VStr "Hello"); ("votes", VNum 0);
             ("tags", VArr 3 [VStr "a"; VStr "b"])]).

(** [new Article()] with a pending change of the inherited [title]. *)
Definition edited : instance :=
  with_modified (initInstance 1 Article VUndefined) [("title", VStr "x")].

(** The stored document with a pending change of its title. *)
Definition revised : instance :=
  with_modified stored [("title", VStr "Bye")].

End Sample.

(** A collection that keeps the list of the calls made on it, answers every
    [insert] with the same id and finds one stored post. *)
Module Shelf.

Inductive call : Type :=
| Inserted (values : object)
| Updated (id : value) (modifier : object)
| Removed (id : value).

Definition posts : Collection (list call) unit :=
  mkCollection
    (fun st values _ => ((st ++ [Inserted values])%list, VStr "p7"))
    (fun st id values _ => ((st ++ [Updated id values])%list, VNum 1))
    (fun st id _ => ((st ++ [Removed id])%list, VNum 1))
    (fun st id =>
       if strict_eq id (VStr "p1")
       then Some [("_id", VStr "p1"); ("title", VStr "Hello"); ("votes", VNum 0)]
       else None).

Definition collectionOf (s : Schema) : option (Collection (list call) unit) :=
  Some posts.

Definition noHandler (s : Schema) (event : string) (this : instance)
  : instance := this.

Definition namesOf (s : Schema) : list string := ["_id"; "title"; "votes"].

End Shelf.

End Fields.


(* ================================================================== *)
(** * Part II — [documentValidate]                                     *)
(* ================================================================== *)

Module Validation.

(** ** Values and documents

    A field value is a primitive, an array, a plain object or a document (an
    instance of a class, [value instanceof AstroClass]).  A document is known
    by the name of its class and its own properties. *)
Inductive value : Type :=
| VUndefined
| VNull
| VBool (b : bool)
| VNum (n : Z)
| VStr (s : string)
| VArr (elems : list value)
| VPlain (props : list (string * value))
| VDoc (className : string) (props : list (string * value)).

Record document : Type := mkDoc {
  docClass : string;
  docProps : list (string * value)
}.

(** [_.isNil(value)] *)
Definition isNil (v : value) : bool :=
  match v with VUndefined | VNull => true | _ => false end.

(** [value instanceof AstroClass] *)
Definition asDocument (v : value) : option document :=
  match v with
  | VDoc c ps => Some (mkDoc c ps)
  | _ => None
  end.

(** The index the callback of [_.each] receives for the [i]-th element of an
    array, as [+] prints it. *)
Definition indexString (i : nat) : string :=
  NilZero.string_of_uint (Nat.to_uint i).

Fixpoint characters (s : string) : list value :=
  match s with
  | EmptyString => []
  | String c r => VStr (String c EmptyString) :: characters r
  end.

Definition indexed (l : list value) : list (string * value) :=
  combine (map indexString (seq 0 (length l))) l.

(** The (index, element) pairs [_.each(value, ...)] visits, in order: the
    elements of an array, the own properties of an object, the characters of
    a string, nothing for the other primitives. *)
Definition eachEntries (v : value) : list (string * value) :=
  match v with
  | VArr es => indexed es
  | VPlain ps => ps
  | VDoc _ ps => ps
  | VStr s => indexed (characters s)
  | _ => []
  end.

(** ** Strings *)

(** The largest position [j <= i] at which [pat] occurs in [s], or -1. *)
Fixpoint lastIndexFrom (s pat : string) (i : nat) : Z :=
  if String.prefix pat (String.substring i (String.length s - i) s)
  then Z.of_nat i
  else match i with
       | O => (-1)%Z
       | S j => lastIndexFrom s pat j
       end.

(** [s.lastIndexOf(pat)] *)
Definition lastIndexOf (s pat : string) : Z :=
  if (String.length pat <=? String.length s)%nat
  then lastIndexFrom s pat (String.length s - String.length pat)
  else (-1)%Z.

(** [s.substr(0, len)] *)
Definition substr0 (s : string) (len : Z) : string :=
  if (len <=? 0)%Z then "" else String.substring 0 (Z.to_nat len) s.

(** ** Errors *)

(** One entry of [ValidationError.details]. *)
Record detail : Type := mkDetail {
  name : string;
  type : string;
  message : string
}.

(** What a call may throw: a [ValidationError] ([ValidationError.is(err)])
    with its details and reason, or anything else. *)
Inductive exn : Type :=
| ValidationError (details : list detail) (reason : string)
| OtherError (what : string).

(** ** Classes, fields and validators (the collaborators of the function) *)

(** [field instanceof ObjectField], [field instanceof ListField] with its
    [isClass] flag, or neither. *)
Inductive fieldKind : Type :=
| ScalarField
| ObjectField
| ListField (isClass : bool).

(** A field of a class: what [documentValidate] reads of it.  [validate]
    receives [doc], [name], [nestedName] and [value] and answers [None] when
    it returns, [Some err] when it throws [err]. *)
Record Field : Type := mkField {
  fname : string;
  transient : bool;
  getOptional : document -> bool;
  kind : fieldKind;
  validate : document -> string -> string -> value -> option exn
}.

(** One entry of [Class.getValidators(name)]. *)
Record validator : Type := mkValidator {
  vtype : string;
  param : value;
  resolveParam : option (document -> value);
  vmessage : option string;
  resolveError : option (document -> string)
}.

(** Everything [documentValidate] imports or calls on the class and the
    document: [Meteor.isServer], [castNested] (which normalises the document
    in place), [isNestedFieldName], [traverse] (given as the (nestedDoc,
    nestedName) pairs it calls back with, in order), the static class methods
    by class name, [doc.get] and the [Validators] table. *)
Record Env : Type := mkEnv {
  isServer : bool;
  castNested : document -> document;
  isNestedFieldName : string -> bool;
  traverse : document -> string -> list (document * string);
  getValidationOrder : string -> list string;
  getField : string -> string -> option Field;
  getValidators : string -> string -> list validator;
  get : document -> string -> value;
  Validators :
    string ->
    option (document -> string -> string -> value -> validator -> option exn)
}.

(** ** Computations: a log of the validation calls made, and an outcome *)

(** A call of a field's type-level [validate] or of a validation function,
    with the [name] it was given. *)
Inductive event : Type :=
| TypeLevel (name : string)
| Validation (type : string) (name : string).

(** How a call ends: it returns, it throws, or the bound put on the depth of
    the recursion was reached. *)
Inductive outcome (A : Type) : Type :=
| Returns (a : A)
| Throws (err : exn)
| OutOfFuel.
Arguments Returns {A} a.
Arguments Throws {A} err.
Arguments OutOfFuel {A}.

Definition T (A : Type) : Type := (list event * outcome A)%type.

Definition ret {A : Type} (a : A) : T A := ([], Returns a).

Definition throw {A : Type} (err : exn) : T A := ([], Throws err).

Definition bind {A B : Type} (m : T A) (k : A -> T B) : T B :=
  match m with
  | (t, Returns a) => let '(t', r) := k a in ((t ++ t')%list, r)
  | (t, Throws err) => (t, Throws err)
  | (t, OutOfFuel) => (t, OutOfFuel)
  end.

Notation "x <- m ;; k" := (bind m (fun x => k))
  (at level 100, m at next level, right associativity).

Definition emit (e : event) : T unit := ([e], Returns tt).

Definition called (r : option exn) : T unit :=
  match r with
  | None => ret tt
  | Some err => throw err
  end.

(** [_.each(l, body)] with the state [body] updates threaded through; a throw
    ends the iteration. *)
Fixpoint forEach {X S : Type} (l : list X) (body : X -> S -> T S) (s : S)
  : T S :=
  match l with
  | [] => ret s
  | x :: r => s' <- body x s ;; forEach r body s'
  end.

(** ** documentValidate *)

(** The options after destructuring with their defaults; [fields] is [None]
    when no list was passed. *)
Record options : Type := mkOptions {
  doc : document;
  fields : option (list string);
  prefix : string;
  stopOnFirstError : bool;
  simulation : bool
}.

(** [documentValidate({doc})] *)
Definition defaults (d : document) : options :=
  mkOptions d None "" true true.

(** [catchValidationError(func)], with the [errors] array it pushes to. *)
Definition catchValidationError (stopOnFirstError0 : bool) (func : T unit)
  (errors : list detail) : T (list detail) :=
  match func with
  | (t, Returns _) => (t, Returns errors)
  | (t, Throws (ValidationError details reason)) =>
      if stopOnFirstError0
      then (t, Throws (ValidationError details reason))
      else (t, Returns (errors ++ details)%list)
  | (t, Throws err) => (t, Throws err)
  | (t, OutOfFuel) => (t, OutOfFuel)
  end.

Section DocumentValidate.

Variable E : Env.

(** The function passed to [catchValidationError] for the field itself: the
    type-level validator, then every validator declared for the name. *)
Definition fieldValidation (Class : string) (doc0 : document)
  (prefix0 name0 : string) (field : Field) (value0 : value) : T unit :=
  _ <- emit (TypeLevel (prefix0 ++ name0)) ;;
  _ <- called (validate field doc0 (prefix0 ++ name0) name0 value0) ;;
  forEach (getValidators E Class name0)
    (fun v _ =>
       match Validators E (vtype v) with
       | None => throw (OtherError "validationFunction is not a function")
       | Some validationFunction =>
           _ <- emit (Validation (vtype v) (prefix0 ++ name0)) ;;
           called (validationFunction doc0 (prefix0 ++ name0) name0 value0 v)
       end)
    tt.

(** The function [_.each(fields, (name) => ...)] runs for a name, with
    [self] the function [documentValidate] it calls. *)
Definition validateName (self : options -> T unit) (Class : string)
  (doc0 : document) (prefix0 : string) (stopOnFirstError0 simulation0 : bool)
  (name0 : string) (errors : list detail) : T (list detail) :=
  if isNestedFieldName E name0 then
    forEach (traverse E doc0 name0)
      (fun target errors =>
         let '(nestedDoc, nestedName) := target in
         catchValidationError stopOnFirstError0
           (self (mkOptions nestedDoc (Some [nestedName])
                    (prefix0 ++ substr0 name0 (lastIndexOf name0 nestedName))
                    stopOnFirstError0 simulation0))
           errors)
      errors
  else
    match getField E Class name0 with
    | None => ret errors
    | Some field =>
        if transient field then ret errors
        else
          let value0 := get E doc0 name0 in
          if getOptional field doc0 && isNil value0 then ret errors
          else
            errors <- catchValidationError stopOnFirstError0
                        (fieldValidation Class doc0 prefix0 name0 field value0)
                        errors ;;
            match kind field with
            | ObjectField =>
                match asDocument value0 with
                | Some nested =>
                    catchValidationError stopOnFirstError0
                      (self (mkOptions nested
                               (Some (getValidationOrder E (docClass nested)))
                               (prefix0 ++ fname field ++ ".")
                               stopOnFirstError0 true))
                      errors
                | None => ret errors
                end
            | ListField true =>
                forEach (eachEntries value0)
                  (fun entry errors =>
                     let '(index, element) := entry in
                     match asDocument element with
                     | Some nested =>
                         catchValidationError stopOnFirstError0
                           (self (mkOptions nested
                                    (Some (getValidationOrder E
                                             (docClass nested)))
                                    (prefix0 ++ fname field ++ "." ++ index
                                       ++ ".")
                                    stopOnFirstError0 true))
                           errors
                     | None => ret errors
                     end)
                  errors
            | _ => ret errors
            end
    end.

(** The throw that ends [documentValidate] when errors were collected. *)
Definition report (errors : list detail) : T unit :=
  match errors with
  | [] => ret tt
  | first :: _ => throw (ValidationError errors (message first))
  end.

(** The body of [documentValidate], with [self] standing for the function in
    its recursive calls. *)
Definition documentValidateBody (self : options -> T unit) (o : options)
  : T unit :=
  if negb (simulation o) && negb (isServer E) then ret tt
  else
    let Class := docClass (doc o) in
    let doc0 := castNested E (doc o) in
    let fields0 :=
      match fields o with
      | Some fs => fs
      | None => getValidationOrder E Class
      end in
    errors <- forEach fields0
                (validateName self Class doc0 (prefix o)
                   (stopOnFirstError o) (simulation o))
                [] ;;
    report errors.

(** [documentValidate(options)]; [fuel] bounds the depth of the nested calls
    (the depth of the documents' nesting). *)
Fixpoint documentValidate (fuel : nat) (o : options) : T unit :=
  match fuel with
  | O => ([], OutOfFuel)
  | S n => documentValidateBody (documentValidate n) o
  end.

End DocumentValidate.

(** What a call contributes in collect mode: the errors it returns. *)
Definition collected (m : T (list detail)) : list detail :=
  match m with
  | (_, Returns ds) => ds
  | _ => []
  end.

(** The name given to a validator lies under a path prefix. *)
Definition under (prefix0 name0 : string) : Prop :=
  exists rest, name0 = prefix0 ++ rest.

Definition eventName (e : event) : string :=
  match e with
  | TypeLevel n => n
  | Validation _ n => n
  end.

(** ** Notions used to state the properties *)

(** [m], run with [errors] already collected. *)
Definition after (errors : list detail) (m : T (list detail))
  : T (list detail) :=
  match m with
  | (t, Returns ds) => (t, Returns (errors ++ ds)%list)
  | _ => m
  end.

Definition accumulates (k : list detail -> T (list detail)) : Prop :=
  forall errors, k errors = after errors (k []).

(** With [stopOnFirstError] nothing is ever collected. *)
Definition collectsNothing (m : T (list detail)) : Prop :=
  forall t ds, m = (t, Returns ds) -> ds = [].

(** [m] does not end with a validation error thrown. *)
Definition noValidationError {A : Type} (m : T A) : Prop :=
  forall t ds reason, m <> (t, Throws (ValidationError ds reason)).

(** How a call made without [stopOnFirstError] ([collect]) stands to the same
    call made with it ([stop]): where the latter returns, the former returns
    too after the same validation calls; where the latter throws a
    validation error, the details of that error open the list the former
    reports, unless the former ends on another error. *)
Definition agrees (stop collect : T unit) : Prop :=
  match stop with
  | (t, Returns _) => collect = (t, Returns tt)
  | (_, Throws (ValidationError ds _)) =>
      match snd collect with
      | Returns _ => ds = []
      | Throws (ValidationError ds' _) => exists more, ds' = (ds ++ more)%list
      | _ => True
      end
  | _ => True
  end.

(** The same for a step of the walk, the collecting one starting with
    [errors] already collected. *)
Definition stepAgrees (errors : list detail) (stop collect : T (list detail))
  : Prop :=
  match stop with
  | (t, Returns _) => collect = (t, Returns errors)
  | (_, Throws (ValidationError ds _)) =>
      match snd collect with
      | Returns errors' =>
          exists more, errors' = (errors ++ ds ++ more)%list
      | _ => True
      end
  | _ => True
  end.

Definition stepsAgree (stop collect : list detail -> T (list detail)) : Prop :=
  forall errors, stepAgrees errors (stop []) (collect errors).

(** [documentValidate] validates the name: it is no nested-field pattern,
    and it names a field that is not transient and not both optional and
    absent. *)
Definition validated (E : Env) (Class : string) (d : document) (n : string)
  (field : Field) : Prop :=
  isNestedFieldName E n = false
  /\ getField E Class n = Some field
  /\ transient field = false
  /\ getOptional field d && isNil (get E d n) = false.

(** How [documentValidate] ends once the walk has collected [errors]. *)
Definition reported (errors : list detail) : outcome unit :=
  match errors with
  | [] => Returns tt
  | first :: _ => Throws (ValidationError errors (message first))
  end.

(** The three cases in which [documentValidate] passes over a name. *)
Definition skipped (E : Env) (Class : string) (d : document) (n : string)
  : Prop :=
  getField E Class n = None
  \/ (exists field, getField E Class n = Some field /\ transient field = true)
  \/ (exists field, getField E Class n = Some field
                    /\ getOptional field d = true
                    /\ isNil (get E d n) = true).

(** Every call logged by [m] was given a name under [p]. *)
Definition tracedUnder {A : Type} (p : string) (m : T A) : Prop :=
  Forall (fun e => under p (eventName e)) (fst m).

(** ** Sample classes and documents *)

Module Sample.

Definition property (ps : list (string * value)) (k : string) : value :=
  match find (fun kv => fst kv =? k) ps with
  | Some kv => snd kv
  | None => VUndefined
  end.

Fixpoint hasDot (s : string) : bool :=
  match s with
  | EmptyString => false
  | String c r => (Ascii.eqb c "."%char) || hasDot r
  end.

(** A type-level validator that accepts non-empty strings only and tags its
    error with the name it was given. *)
Definition nonEmptyString (d : document) (name0 nestedName : string)
  (v : value) : option exn :=
  match v with
  | VStr (String _ _) => None
  | _ => Some (ValidationError [mkDetail name0 "string" "must be a string"]
                               "must be a string")
  end.

Definition anything (d : document) (name0 nestedName : string) (v : value)
  : option exn := None.

Definition never (d : document) : bool := false.

Definition always (d : document) : bool := true.

Definition fieldsOf (Class name0 : string) : option Field :=
  if Class =? "User" then
    if name0 =? "name" then
      Some (mkField "name" false never ScalarField nonEmptyString)
    else if name0 =? "email" then
      Some (mkField "email" false never ScalarField nonEmptyString)
    else if name0 =? "nickname" then
      Some (mkField "nickname" false always ScalarField nonEmptyString)
    else if name0 =? "password" then
      Some (mkField "password" true never ScalarField nonEmptyString)
    else if name0 =? "address" then
      Some (mkField "address" false never ObjectField anything)
    else if name0 =? "phones" then
      Some (mkField "phones" false never (ListField true) anything)
    else None
  else if Class =? "Address" then
    if name0 =? "city" then
      Some (mkField "city" false never ScalarField nonEmptyString)
    else None
  else if Class =? "Phone" then
    if name0 =? "number" then
      Some (mkField "number" false never ScalarField nonEmptyString)
    else None
  else None.

Definition orderOf (Class : string) : list string :=
  if Class =? "User" then
    ["name"; "email"; "nickname"; "password"; "address"; "phones"]
  else if Class =? "Address" then ["city"]
  else if Class =? "Phone" then ["number"]
  else [].

(** A "minLength" validator, declared on the name of a user. *)
Definition minLength (d : document) (name0 nestedName : string) (v : value)
  (rule : validator) : option exn :=
  match v, param rule with
  | VStr s, VNum n =>
      if (Z.of_nat (String.length s) <? n)%Z
      then Some (ValidationError [mkDetail name0 "minLength" "is too short"]
                                 "is too short")
      else None
  | _, _ => None
  end.

Definition validatorsOf (Class name0 : string) : list validator :=
  if (Class =? "User") && (name0 =? "name")
  then [mkValidator "minLength" (VNum 2) None None None]
  else [].

Definition table (type0 : string)
  : option (document -> string -> string -> value -> validator -> option exn)
  := if type0 =? "minLength" then Some minLength else None.

Definition env : Env :=
  mkEnv true (fun d => d) hasDot (fun _ _ => []) orderOf fieldsOf
        validatorsOf (fun d k => property (docProps d) k) table.

(** A user with an empty name and no email; the nickname is absent and the
    transient password is not a string. *)
Definition incomplete : document :=
  mkDoc "User"
    [("name", VStr ""); ("password", VNum 0);
     ("address", VDoc "Address" [("city", VStr "Oslo")]); ("phones", VArr [])].

(** A valid user but for the city of the address and the second phone. *)
Definition misplaced : document :=
  mkDoc "User"
    [("name", VStr "Ada"); ("email", VStr "ada@example.org");
     ("address", VDoc "Address" [("city", VStr "")]);
     ("phones", VArr [VDoc "Phone" [("number", VStr "1")];
                      VDoc "Phone" [("number", VUndefined)]])].

(** A valid user whose optional nickname is present but not a string. *)
Definition nicknamed : document :=
  mkDoc "User"
    [("name", VStr "Ada"); ("email", VStr "ada@example.org");
     ("nickname", VNum 7)].

Definition mustBeString (name0 : string) : detail :=
  mkDetail name0 "string" "must be a string".

(** A user with nothing to report. *)
Definition complete : document :=
  mkDoc "User"
    [("name", VStr "Ada"); ("email", VStr "ada@example.org");
     ("address", VDoc "Address" [("city", VStr "Oslo")]);
     ("phones", VArr [VDoc "Phone" [("number", VStr "1")]])].

(** A user without email. *)
Definition noEmail : document :=
  mkDoc "User" [("name", VStr "Ada")].

(** The sample classes with [traverse] resolving the pattern
    ["address.city"] to the city of the address. *)
Definition patternEnv : Env :=
  mkEnv true (fun d => d) hasDot
        (fun d pattern =>
           if pattern =? "address.city" then
             match asDocument (property (docProps d) "address") with
             | Some nested => [(nested, "city")]
             | None => []
             end
           else [])
        orderOf fieldsOf validatorsOf (fun d k => property (docProps d) k)
        table.

(** The sample classes with an empty [Validators] table. *)
Definition unregisteredEnv : Env :=
  mkEnv true (fun d => d) hasDot (fun _ _ => []) orderOf fieldsOf
        validatorsOf (fun d k => property (docProps d) k) (fun _ => None).

End Sample.

End Validation.

(* ================================================================== *)
(** * Part III — properties of the Fields module                       *)
(* ================================================================== *)

Module FieldsProperties.
Import Fields.

(** ** Property maps *)

Section PropsFacts.
Context {A : Type}.
Implicit Types (o : list (string * A)) (k : string) (v : A).

Lemma lookup_assign_eq o k v : lookup (assign k v o) k = Some v.
Proof.
  induction o as [|[k' v'] r IH]; simpl.
  - now rewrite String.eqb_refl.
  - destruct (String.eqb_spec k' k) as [->|Hne]; simpl.
    + now rewrite String.eqb_refl.
    + destruct (String.eqb_spec k' k); [contradiction | exact IH].
Qed.

Lemma lookup_assign_neq o k k' v :
  k <> k' -> lookup (assign k' v o) k = lookup o k.
Proof.
  intros Hne. induction o as [|[k0 v0] r IH]; simpl.
  - destruct (String.eqb_spec k' k); [congruence | reflexivity].
  - destruct (String.eqb_spec k0 k') as [->|Hk]; simpl.
    + destruct (String.eqb_spec k' k); [congruence | reflexivity].
    + destruct (String.eqb_spec k0 k); [reflexivity | exact IH].
Qed.

Lemma assign_same o k v : lookup o k = Some v -> assign k v o = o.
Proof.
  induction o as [|[k' v'] r IH]; simpl; [discriminate|].
  destruct (String.eqb_spec k' k) as [->|Hne].
  - now intros [= ->].
  - intros H. now rewrite IH.
Qed.

Lemma has_lookup o k : has o k = true <-> exists v, lookup o k = Some v.
Proof.
  unfold has. destruct (lookup o k) as [v|].
  - split; [eauto | reflexivity].
  - split; [discriminate | intros [v [=]]].
Qed.

Lemma has_false_lookup o k : has o k = false <-> lookup o k = None.
Proof.
  unfold has. destruct (lookup o k); split; congruence.
Qed.

Lemma lookup_In_keys o k v : lookup o k = Some v -> In k (keys o).
Proof.
  induction o as [|[k' v'] r IH]; simpl; [discriminate|].
  destruct (String.eqb_spec k' k) as [->|Hne]; [now left | right; auto].
Qed.

Lemma In_keys_lookup o k : In k (keys o) -> exists v, lookup o k = Some v.
Proof.
  induction o as [|[k' v'] r IH]; simpl; [contradiction|].
  destruct (String.eqb_spec k' k) as [->|Hne]; [eauto|].
  intros [H|H]; [contradiction | auto].
Qed.

Lemma contains_In (ks : list string) k : contains ks k = true <-> In k ks.
Proof.
  unfold contains. rewrite existsb_exists. split.
  - intros [x [Hin Heq]]. apply String.eqb_eq in Heq. now subst.
  - intros Hin. exists k. split; [exact Hin | apply String.eqb_refl].
Qed.

End PropsFacts.

Lemma prop_lookup (o : object) k v : lookup o k = Some v -> prop o k = v.
Proof. unfold prop. now intros ->. Qed.

Lemma prop_absent (o : object) k : lookup o k = None -> prop o k = VUndefined.
Proof. unfold prop. now intros ->. Qed.

(** [x === x] holds for every truthy [x] (the one value that differs from
    itself, [NaN], is falsy). *)
Lemma strict_eq_refl_truthy v : truthy v = true -> strict_eq v v = true.
Proof.
  destruct v; simpl; try discriminate; intros _;
    auto using Bool.eqb_reflx, Z.eqb_refl, String.eqb_refl, Nat.eqb_refl.
Qed.

(** ** The chain walks *)

Lemma Schema_chain_ind (P : Schema -> Prop) :
  (forall n fs, P (MkSchema n fs None)) ->
  (forall n fs parent, P parent -> P (MkSchema n fs (Some parent))) ->
  forall s, P s.
Proof.
  intros Hroot Hchild. fix IH 1. intros [n fs [parent|]].
  - apply Hchild, IH.
  - apply Hroot.
Qed.

Lemma defaultFromChain_inherited s fieldName :
  defaultFromChain s fieldName = inheritedDefault s fieldName.
Proof.
  unfold inheritedDefault.
  induction s as [n fs | n fs parent IH] using Schema_chain_ind;
    simpl; unfold getField, has; simpl;
    destruct (lookup fs fieldName) as [fd|] eqn:Hfd; simpl;
    rewrite ?Hfd; auto.
Qed.

(** ** get *)

(** C6 — For every document and every field name other than ['_id'],
    [get(name)] returns the entry of the modified mapping if there is one,
    otherwise the entry of the values mapping if there is one, otherwise the
    default of the field found by walking the parent class chain, otherwise
    nothing ([undefined]). *)
Theorem get_precedence (this : instance) (fieldName : string) :
  fieldName <> "_id" ->
  get this fieldName = resolved this fieldName.
Proof.
  intros Hid. unfold get, resolved.
  destruct (String.eqb_spec fieldName "_id") as [|_]; [contradiction|].
  simpl. unfold has, prop.
  destruct (lookup (_modified this) fieldName); [reflexivity|].
  destruct (lookup (_values this) fieldName); [reflexivity|].
  apply defaultFromChain_inherited.
Qed.

Lemma get_precedence_witness :
  get Sample.edited "title" = VStr "x"
  /\ get Sample.stored "title" = VStr "Hello"
  /\ get Sample.draft "title" = VStr "untitled"
  /\ get Sample.edited "votes" = VNum 0
  /\ get Sample.draft "missing" = VUndefined.
Proof.
  rewrite !get_precedence by discriminate.
  split; [reflexivity|]. split; [reflexivity|]. split; [reflexivity|].
  split; reflexivity.
Defined.

(** ** set *)

Section SetFacts.

Variable convert : value -> ftype -> result value.

(** C3 (amended) — For every document whose values mapping holds a truthy
    ['_id'] [x], [set('_id', y)] changes nothing whatever [y] is: the
    document is left as it was, and [get('_id')] keeps answering [x] as long
    as no ['_id'] is pending in the modified mapping. *)
Theorem set_id_denied_once_stored (this : instance) (x y : value) :
  prop (_values this) "_id" = x ->
  truthy x = true ->
  set convert this "_id" y = Return this
  /\ (has (_modified this) "_id" = false -> get this "_id" = x).
Proof.
  intros Hx Ht. split.
  - unfold Fields.set. simpl. now rewrite Hx, Ht.
  - intros Hm. unfold get. simpl. rewrite Hx, Ht, Hm. simpl.
    destruct (has (_values this) "_id") eqn:Hv; [reflexivity|].
    apply has_false_lookup in Hv. apply prop_absent in Hv.
    rewrite Hv in Hx. subst x. discriminate.
Qed.

(** C4 (amended) — For every document, field name and value [v] whose cast
    [cv] is the value currently resolved for the field, [set(name, v)]
    leaves the modified mapping unchanged whenever that resolved value is
    the entry of the modified mapping, or is a truthy entry of the values
    mapping. *)
Theorem set_resolved_value_keeps_modified
  (this : instance) (fieldName : string) (v cv : value) :
  castThroughChain convert (schema this) fieldName v = Return cv ->
  resolved this fieldName = cv ->
  has (_modified this) fieldName = true
  \/ (has (_values this) fieldName = true /\ truthy cv = true) ->
  exists this',
    set convert this fieldName v = Return this'
    /\ _modified this' = _modified this.
Proof.
  intros Hcast Hres Hsrc. unfold Fields.set.
  destruct ((fieldName =? "_id")
            && truthy (prop (_values this) fieldName)); [eauto|].
  rewrite Hcast.
  destruct (truthy (prop (_values this) fieldName)
            && strict_eq cv (prop (_values this) fieldName)) eqn:Hsame;
    [eauto|].
  eexists; split; [reflexivity|]. simpl.
  unfold resolved in Hres.
  destruct (lookup (_modified this) fieldName) as [m|] eqn:Hm.
  - subst m. now apply assign_same.
  - destruct Hsrc as [Hh | [Hh Ht]].
    + apply has_lookup in Hh. destruct Hh as [? Hh]. congruence.
    + apply has_lookup in Hh. destruct Hh as [w Hw].
      rewrite Hw in Hres. subst w.
      rewrite (prop_lookup _ _ _ Hw), Ht, (strict_eq_refl_truthy _ Ht) in Hsame.
      discriminate.
Qed.

(** C9 — For every document and field name whose entry in the values
    mapping is falsy or absent, [set(name, v)] is never a no-op: the cast
    value is written into the modified mapping, also when it equals the
    current value. *)
Theorem set_on_falsy_value_always_records
  (this : instance) (fieldName : string) (v cv : value) :
  truthy (prop (_values this) fieldName) = false ->
  castThroughChain convert (schema this) fieldName v = Return cv ->
  set convert this fieldName v
  = Return (with_modified this (assign fieldName cv (_modified this)))
  /\ forall this', set convert this fieldName v = Return this' ->
                   lookup (_modified this') fieldName = Some cv.
Proof.
  intros Hf Hcast.
  assert (Hset : set convert this fieldName v
                 = Return (with_modified this
                             (assign fieldName cv (_modified this)))).
  { unfold Fields.set. rewrite Hf, Hcast, Bool.andb_false_r. reflexivity. }
  split; [exact Hset|].
  intros this' H. rewrite Hset in H. injection H as <-. simpl.
  apply lookup_assign_eq.
Qed.

End SetFacts.

Lemma set_id_denied_once_stored_witness :
  prop (_values Sample.stored) "_id" = VStr "p1"
  /\ set Sample.alreadyTyped Sample.stored "_id" (VStr "p2")
     = Return Sample.stored
  /\ get Sample.stored "_id" = VStr "p1".
Proof.
  split; [reflexivity|].
  destruct (set_id_denied_once_stored Sample.alreadyTyped Sample.stored
              (VStr "p1") (VStr "p2") eq_refl eq_refl) as [Hset Hget].
  split; [exact Hset | apply Hget; reflexivity].
Defined.

(** C3, as stated, fails: on a new document [set('_id', "a")] followed by
    [set('_id', "b")] leaves ["b"] pending in the modified mapping (the
    guard of [set] reads the values mapping, which [set] never writes), and
    [get('_id')] answers [undefined]. *)
Lemma set_id_twice_counterexample :
  exists d1 d2,
    truthy (VStr "a") = true
    /\ set Sample.alreadyTyped Sample.draft "_id" (VStr "a") = Return d1
    /\ set Sample.alreadyTyped d1 "_id" (VStr "b") = Return d2
    /\ resolved d2 "_id" = VStr "b"
    /\ get d2 "_id" = VUndefined
    /\ resolved d2 "_id" <> VStr "a"
    /\ get d2 "_id" <> VStr "a".
Proof.
  do 2 eexists. repeat split; try reflexivity; discriminate.
Qed.

Lemma set_resolved_value_keeps_modified_witness :
  resolved Sample.stored "title" = VStr "Hello"
  /\ exists this',
       set Sample.alreadyTyped Sample.stored "title" (VStr "Hello")
       = Return this'
       /\ _modified this' = _modified Sample.stored.
Proof.
  split; [reflexivity|].
  apply (set_resolved_value_keeps_modified Sample.alreadyTyped Sample.stored
           "title" (VStr "Hello") (VStr "Hello") eq_refl eq_refl).
  right. split; reflexivity.
Defined.

(** C4, as stated, fails: on a new document the resolved value of [title]
    is its default ["untitled"], and [set('title', "untitled")] still
    records it as a modification. *)
Lemma set_default_value_counterexample :
  castThroughChain Sample.alreadyTyped (schema Sample.draft) "title"
    (VStr "untitled") = Return (VStr "untitled")
  /\ resolved Sample.draft "title" = VStr "untitled"
  /\ get Sample.draft "title" = VStr "untitled"
  /\ exists this',
       set Sample.alreadyTyped Sample.draft "title" (VStr "untitled")
       = Return this'
       /\ _modified this' = [("title", VStr "untitled")]
       /\ _modified this' <> _modified Sample.draft.
Proof.
  repeat split; try reflexivity.
  eexists. repeat split; try reflexivity. discriminate.
Qed.

Lemma set_on_falsy_value_always_records_witness :
  prop (_values Sample.stored) "votes" = VNum 0
  /\ set Sample.alreadyTyped Sample.stored "votes" (VNum 0)
     = Return (with_modified Sample.stored [("votes", VNum 0)]).
Proof.
  split; [reflexivity|].
  apply (set_on_falsy_value_always_records Sample.alreadyTyped Sample.stored
           "votes" (VNum 0) (VNum 0) eq_refl eq_refl).
Defined.

(** ** getModified *)

Section KeysFacts.
Context {A : Type}.
Implicit Types (o : list (string * A)) (k : string) (v : A).

Lemma keys_assign o k v :
  keys (assign k v o) = if has o k then keys o else (keys o ++ [k])%list.
Proof.
  unfold has. induction o as [|[k' v'] r IH]; simpl; [reflexivity|].
  destruct (String.eqb_spec k' k) as [->|Hne]; simpl; [reflexivity|].
  rewrite IH. now destruct (lookup r k).
Qed.

Lemma has_In_keys o k : has o k = true <-> In k (keys o).
Proof.
  rewrite has_lookup. split.
  - intros [v Hv]. eapply lookup_In_keys; eauto.
  - apply In_keys_lookup.
Qed.

Lemma NoDup_keys_assign o k v : NoDup (keys o) -> NoDup (keys (assign k v o)).
Proof.
  intros Hnd. rewrite keys_assign. destruct (has o k) eqn:Hh; [exact Hnd|].
  apply NoDup_app; [exact Hnd | repeat constructor; auto |].
  intros x Hx [<-|[]]. apply has_In_keys in Hx. congruence.
Qed.

(** The keys [_.pick] copies are distinct, listed, and in the source: its
    own, or inherited. *)
Lemma pick_keys (inherited src : list (string * A)) (ks : list string) :
  NoDup (keys (pick inherited src ks))
  /\ forall k, In k (keys (pick inherited src ks)) ->
               In k ks /\ (has src k = true \/ has inherited k = true).
Proof.
  unfold pick.
  assert (H : forall acc,
             NoDup (keys acc) ->
             let res := fold_left
                          (fun copy k =>
                             match lookup src k with
                             | Some v => assign k v copy
                             | None =>
                                 match lookup inherited k with
                                 | Some v => assign k v copy
                                 | None => copy
                                 end
                             end) ks acc in
             NoDup (keys res)
             /\ forall k, In k (keys res) ->
                          In k (keys acc)
                          \/ (In k ks
                              /\ (has src k = true
                                  \/ has inherited k = true))).
  { assert (Hstep : forall acc k0 v0 r,
               has src k0 = true \/ has inherited k0 = true ->
               (forall k, In k (keys (assign k0 v0 acc)) \/
                          (In k r /\ (has src k = true
                                      \/ has inherited k = true)) ->
                          In k (keys acc)
                          \/ (In k (k0 :: r)
                              /\ (has src k = true
                                  \/ has inherited k = true)))).
    { intros acc k0 v0 r Hk0 k [Ha | [Hr Hs]];
        [|right; split; [now right | exact Hs]].
      rewrite keys_assign in Ha. destruct (has acc k0).
      - now left.
      - apply in_app_or in Ha. destruct Ha as [Ha | [<-|[]]]; [now left|].
        right. split; [now left | exact Hk0]. }
    induction ks as [|k0 r IH]; intros acc Hnd; simpl.
    - split; [exact Hnd | auto].
    - destruct (lookup src k0) as [v0|] eqn:Hk0;
        [|destruct (lookup inherited k0) as [v0|] eqn:Hi0].
      + destruct (IH (assign k0 v0 acc) (NoDup_keys_assign _ _ _ Hnd))
          as [Hnd' Hin].
        split; [exact Hnd'|]. intros k Hk.
        apply (Hstep acc k0 v0 r); [|exact (Hin k Hk)].
        left. apply has_lookup. eauto.
      + destruct (IH (assign k0 v0 acc) (NoDup_keys_assign _ _ _ Hnd))
          as [Hnd' Hin].
        split; [exact Hnd'|]. intros k Hk.
        apply (Hstep acc k0 v0 r); [|exact (Hin k Hk)].
        right. apply has_lookup. eauto.
      + destruct (IH acc Hnd) as [Hnd' Hin]. split; [exact Hnd'|].
        intros k Hk. destruct (Hin k Hk) as [Ha | [Hr Hs]]; auto. }
  destruct (H [] (NoDup_nil _)) as [Hnd Hin]. split; [exact Hnd|].
  intros k Hk. destruct (Hin k Hk) as [[] | ?]; assumption.
Qed.

End KeysFacts.

Lemma keys_entries (o : object) : keys (entries o) = keys o.
Proof.
  unfold keys, entries. rewrite map_map. reflexivity.
Qed.

Lemma has_entries (o : object) k : has (entries o) k = has o k.
Proof.
  unfold has, entries. induction o as [|[k' x] r IH]; simpl; [reflexivity|].
  now destruct (k' =? k).
Qed.

(** What an object inherits under a name: the member of [Object.prototype]
    of that name, if there is one. *)
Lemma lookup_inheritedEntries k :
  lookup inheritedEntries k
  = if contains objectPrototype k then Some (EMember k) else None.
Proof.
  unfold inheritedEntries, contains.
  induction objectPrototype as [|m r IH]; simpl; [reflexivity|].
  rewrite (String.eqb_sym k m).
  destruct (String.eqb_spec m k) as [->|Hne]; [reflexivity | exact IH].
Qed.

(** Filling in the missing keys: once [k] has been given the field
    definition found for it, it keeps it. *)
Lemma fill_missing_lookup (s : Schema) (k : string) (fd : FieldDefinition)
  (missingKeys : list string) :
  fieldFromChain s k = Some fd ->
  forall oldValues,
    In k missingKeys \/ lookup oldValues k = Some (EField fd) ->
    lookup
      (fold_left
         (fun oldValues missingKey =>
            match fieldFromChain s missingKey with
            | Some value0 => assign missingKey (EField value0) oldValues
            | None => oldValues
            end)
         missingKeys oldValues) k
    = Some (EField fd).
Proof.
  intros Hfd. induction missingKeys as [|m r IH]; intros oldValues H; simpl.
  - destruct H as [[]|H]; exact H.
  - apply IH. destruct (String.eqb_spec m k) as [->|Hne].
    + right. rewrite Hfd. apply lookup_assign_eq.
    + destruct H as [[Hm|Hr]|Hl]; [contradiction | now left |].
      right. destruct (fieldFromChain s m); [|exact Hl].
      rewrite lookup_assign_neq; [exact Hl | congruence].
Qed.

(** C5 (what the code does) — For every document and every modified field
    name with no entry in the values mapping ([name in this._values] is
    false: no property of its own, and the name is not one every object
    inherits), [getModified(true)] stores under that key the object
    [schema.getField] returned for the first class of the chain that
    declares the field: the field definition itself, not its [default]. *)
Theorem getModified_old_missing_key_is_field_definition
  (this : instance) (k : string) (fd : FieldDefinition) :
  has (_modified this) k = true ->
  has (_values this) k || contains objectPrototype k = false ->
  fieldFromChain (schema this) k = Some fd ->
  lookup (getModified this true) k = Some (EField fd)
  /\ lookup (getModified this true) k <> Some (EValue (default fd)).
Proof.
  intros Hm Hv Hfd.
  apply Bool.orb_false_iff in Hv. destruct Hv as [Hv Hproto].
  assert (Hgoal : lookup (getModified this true) k = Some (EField fd));
    [|split; [exact Hgoal | rewrite Hgoal; discriminate]].
  unfold getModified.
  set (modifiedKeys := keys (_modified this)).
  set (picked := pick inheritedEntries (entries (_values this)) modifiedKeys).
  destruct (pick_keys inheritedEntries (entries (_values this)) modifiedKeys)
    as [Hnd Hin].
  fold picked in Hnd, Hin.
  assert (Hk : In k modifiedKeys) by now apply has_In_keys.
  assert (Hnk : ~ In k (keys picked)).
  { intros H. apply Hin in H. destruct H as [_ [H|H]].
    - rewrite has_entries in H. congruence.
    - unfold has in H. rewrite lookup_inheritedEntries, Hproto in H.
      discriminate. }
  assert (Hlen : length (keys picked) < length modifiedKeys).
  { assert (Hle : length (k :: keys picked) <= length modifiedKeys).
    { apply NoDup_incl_length; [now constructor|].
      intros x [<-|Hx]; [exact Hk | now apply Hin]. }
    simpl in Hle. lia. }
  destruct (Nat.eqb_spec (length modifiedKeys) (length (keys picked)));
    [lia|]. simpl.
  apply fill_missing_lookup; [exact Hfd|]. left.
  unfold difference. apply filter_In. split; [exact Hk|].
  destruct (contains (keys picked) k) eqn:Hc; [|reflexivity].
  apply contains_In in Hc. contradiction.
Qed.

Lemma getModified_old_missing_key_is_field_definition_witness :
  set Sample.alreadyTyped (initInstance 1 Sample.Article VUndefined)
    "title" (VStr "x") = Return Sample.edited
  /\ lookup (getModified Sample.edited true) "title"
     = Some (EField (mkField (Some TString) (VStr "untitled")))
  /\ lookup (getModified Sample.edited true) "title"
     <> Some (EValue (VStr "untitled")).
Proof.
  split; [reflexivity|].
  apply (getModified_old_missing_key_is_field_definition Sample.edited
           "title" (mkField (Some TString) (VStr "untitled")));
    reflexivity.
Defined.

(** ** initSchema *)

Section OccurrencesFacts.
Context {A : Type}.
Implicit Types (o : list (string * A)) (k : string) (v : A).




End OccurrencesFacts.






(** ** clone *)

Lemma value_rect_nested (P : value -> Prop) :
  P VUndefined -> P VNull -> (forall b, P (VBool b)) ->
  (forall n, P (VNum n)) -> P VNaN -> (forall s, P (VStr s)) ->
  (forall i t, P (VDate i t)) ->
  (forall i elems, Forall P elems -> P (VArr i elems)) ->
  (forall i props, Forall (fun kv => P (snd kv)) props -> P (VObj i props)) ->
  forall v, P v.
Proof.
  intros Hu Hn Hb Hz Hnan Hs Hd Ha Ho. fix IH 1.
  intros [| |b|n| |s|i t|i es|i ps];
    [exact Hu | exact Hn | apply Hb | apply Hz | exact Hnan | apply Hs
    | apply Hd | | ].
  - apply Ha. induction es as [|x r IHr]; constructor; [apply IH | exact IHr].
  - apply Ho. induction ps as [|[k x] r IHr]; constructor;
      [apply IH | exact IHr].
Qed.

Lemma Forall_range_weaken (a b a' b' : nat) (l : list nat) :
  a' <= a -> b <= b' ->
  Forall (fun i => a <= i < b) l -> Forall (fun i => a' <= i < b') l.
Proof.
  intros Ha Hb H. eapply Forall_impl; [|exact H]. simpl. intros i Hi. lia.
Qed.

Lemma cloneEach_values (elems : list value) :
  Forall (fun x => forall n, freshCopy n x (fst (EJSON_clone n x))
                               (snd (EJSON_clone n x))) elems ->
  forall n,
    n <= fst (cloneEach EJSON_clone n elems)
    /\ map contents (snd (cloneEach EJSON_clone n elems)) = map contents elems
    /\ Forall (fun i => n <= i < fst (cloneEach EJSON_clone n elems))
              (flat_map ids (snd (cloneEach EJSON_clone n elems))).
Proof.
  induction 1 as [|x r Hx _ IH]; intros n; simpl.
  - repeat split; [lia | constructor].
  - specialize (Hx n). destruct (EJSON_clone n x) as [n1 x'].
    specialize (IH n1). destruct (cloneEach EJSON_clone n1 r) as [n2 r'].
    simpl in *. destruct Hx as [Hle [Hc Hf]]. destruct IH as [Hle' [Hc' Hf']].
    repeat split; [lia | congruence |].
    apply Forall_app. split;
      [eapply Forall_range_weaken; [| |exact Hf] |
       eapply Forall_range_weaken; [| |exact Hf']]; lia.
Qed.

Lemma cloneEach_props (props : object) :
  Forall (fun kv => forall n, freshCopy n (snd kv)
                                (fst (EJSON_clone n (snd kv)))
                                (snd (EJSON_clone n (snd kv)))) props ->
  forall n,
    let r := cloneEach
               (fun n (kv : string * value) =>
                  let '(k, x) := kv in
                  let '(n', x') := EJSON_clone n x in
                  (n', (k, x')))
               n props in
    n <= fst r
    /\ objectContents (snd r) = objectContents props
    /\ Forall (fun i => n <= i < fst r) (objectIds (snd r)).
Proof.
  induction 1 as [|[k x] r Hx _ IH]; intros n; simpl.
  - repeat split; [lia | constructor].
  - specialize (Hx n). simpl in Hx. destruct (EJSON_clone n x) as [n1 x'].
    specialize (IH n1). simpl in IH.
    destruct (cloneEach _ n1 r) as [n2 r'].
    simpl in *. destruct Hx as [Hle [Hc Hf]]. destruct IH as [Hle' [Hc' Hf']].
    repeat split; [lia | congruence |].
    apply Forall_app. split;
      [eapply Forall_range_weaken; [| |exact Hf] |
       eapply Forall_range_weaken; [| |exact Hf']]; lia.
Qed.

(** [EJSON.clone] is a deep copy: same contents, every object of the result
    newly allocated. *)
Lemma EJSON_clone_freshCopy (v : value) :
  forall n, freshCopy n v (fst (EJSON_clone n v)) (snd (EJSON_clone n v)).
Proof.
  induction v as [| |b|z| |s|i t|i es IH|i ps IH] using value_rect_nested;
    intros n; unfold freshCopy; simpl.
  1-6: repeat split; [lia | constructor].
  - repeat split; [lia | repeat constructor; lia].
  - destruct (cloneEach_values es IH (S n)) as [Hle [Hc Hf]].
    destruct (cloneEach EJSON_clone (S n) es) as [n' es']. simpl in *.
    repeat split; [lia | congruence |].
    constructor; [lia|]. eapply Forall_range_weaken; [| |exact Hf]; lia.
  - destruct (cloneEach_props ps IH (S n)) as [Hle [Hc Hf]].
    destruct (cloneEach _ (S n) ps) as [n' ps']. simpl in *.
    repeat split; [lia | unfold objectContents in Hc; congruence |].
    constructor; [lia|]. eapply Forall_range_weaken; [| |exact Hf]; lia.
Qed.

Lemma keys_objectContents (o : object) : keys (objectContents o) = keys o.
Proof. unfold keys, objectContents. now rewrite map_map. Qed.

Lemma has_same_keys {A B : Type} (o : list (string * A))
  (o' : list (string * B)) k :
  keys o = keys o' -> has o k = has o' k.
Proof.
  intros H. destruct (has o k) eqn:Ho; symmetry.
  - apply has_In_keys. rewrite <- H. now apply has_In_keys.
  - destruct (has o' k) eqn:Ho'; [|reflexivity].
    apply has_In_keys in Ho'. rewrite <- H in Ho'.
    apply has_In_keys in Ho'. congruence.
Qed.

Lemma has_omit (o : object) k : has (omit o [k]) k = false.
Proof.
  destruct (has (omit o [k]) k) eqn:H; [|reflexivity].
  apply has_In_keys in H. unfold keys, omit in H.
  apply in_map_iff in H. destruct H as [[k' v] [Hk Hin]]. simpl in Hk.
  subst k'. apply filter_In in Hin. destruct Hin as [_ Hc]. simpl in Hc.
  rewrite String.eqb_refl in Hc. discriminate.
Qed.

(** [_.extend] leaves the two mappings of the clone alone when the
    attributes name neither. *)
Lemma extend_keeps_mappings (props : object) :
  has props "_values" = false -> has props "_modified" = false ->
  forall cloned,
    let res := fold_left putProperty props cloned in
    oid res = oid cloned /\ schema res = schema cloned
    /\ _values res = _values cloned /\ _modified res = _modified cloned.
Proof.
  unfold has.
  induction props as [|[k v] r IH]; intros Hv Hm cloned; simpl; [auto|].
  simpl in Hv, Hm.
  destruct (String.eqb_spec k "_values"); [discriminate|].
  destruct (String.eqb_spec k "_modified"); [discriminate|].
  destruct (IH Hv Hm (with_own cloned (assign k v (own cloned))))
    as (H1 & H2 & H3 & H4).
  simpl in *. auto.
Qed.

(** C10 (amended) — For every document, [clone(attrs, false)] with [attrs]
    absent, not an object, or an object with neither a ['_values'] nor a
    ['_modified'] property, returns a newly allocated instance of the same
    class whose values and modified mappings are deep copies of the
    original's without the ['_id'] key: same contents, every object in them
    newly allocated, hence none shared with the original, which the call
    leaves as it was. *)
Theorem clone_deep_copies_mappings
  (save : instance -> instance) (next : nat) (this : instance)
  (attrs : value) :
  has (propsOf attrs) "_values" = false ->
  has (propsOf attrs) "_modified" = false ->
  let next' := mark (clone save next this attrs false) in
  let cloned := copy (clone save next this attrs false) in
  receiver (clone save next this attrs false) = this
  /\ oid cloned = next /\ next < next'
  /\ schema cloned = schema this
  /\ objectContents (_values cloned)
     = objectContents (omit (_values this) ["_id"])
  /\ objectContents (_modified cloned)
     = objectContents (omit (_modified this) ["_id"])
  /\ has (_values cloned) "_id" = false
  /\ has (_modified cloned) "_id" = false
  /\ Forall (fun i => next < i < next')
            (objectIds (_values cloned) ++ objectIds (_modified cloned))
  /\ (Forall (fun i => i < next)
             (oid this :: objectIds (_values this)
                ++ objectIds (_modified this)) ->
      forall i,
        In i (oid cloned :: objectIds (_values cloned)
                ++ objectIds (_modified cloned)) ->
        ~ In i (oid this :: objectIds (_values this)
                  ++ objectIds (_modified this))).
Proof.
  intros Hav Ham. unfold clone. simpl.
  pose proof (cloneEach_props (omit (_values this) ["_id"])) as Hvals.
  specialize (Hvals ltac:(apply Forall_forall; intros; apply EJSON_clone_freshCopy)
                    (S (S (S next)))).
  simpl in Hvals.
  destruct (cloneEach _ (S (S (S next))) (omit (_values this) ["_id"]))
    as [n1 vals] eqn:Ev.
  simpl in Hvals. destruct Hvals as (Hle1 & Hc1 & Hf1).
  pose proof (cloneEach_props (omit (_modified this) ["_id"])) as Hmods.
  specialize (Hmods ltac:(apply Forall_forall; intros; apply EJSON_clone_freshCopy)
                    (S (S n1))).
  simpl in Hmods.
  destruct (cloneEach _ (S (S n1)) (omit (_modified this) ["_id"]))
    as [n2 mods] eqn:Em.
  simpl in Hmods. destruct Hmods as (Hle2 & Hc2 & Hf2). simpl.
  set (base := with_modified
                 (with_values (initInstance next (schema this) VUndefined) vals)
                 mods).
  assert (Hext : let res := if isObject attrs then extend base attrs else base in
                 oid res = next /\ schema res = schema this
                 /\ _values res = vals /\ _modified res = mods).
  { destruct (isObject attrs); simpl; [|auto].
    apply (extend_keeps_mappings (propsOf attrs) Hav Ham base). }
  destruct (if isObject attrs then extend base attrs else base) as [o c vs ms ow].
  simpl in Hext. destruct Hext as (-> & -> & -> & ->). simpl.
  assert (Hfresh : Forall (fun i => next < i < n2)
                          (objectIds vals ++ objectIds mods)).
  { apply Forall_app. split;
      [eapply Forall_range_weaken; [| |exact Hf1] |
       eapply Forall_range_weaken; [| |exact Hf2]]; lia. }
  split; [reflexivity|].
  repeat split; try assumption; try lia.
  - rewrite (has_same_keys vals (omit (_values this) ["_id"]));
      [apply has_omit|].
    now rewrite <- (keys_objectContents vals), Hc1, keys_objectContents.
  - rewrite (has_same_keys mods (omit (_modified this) ["_id"]));
      [apply has_omit|].
    now rewrite <- (keys_objectContents mods), Hc2, keys_objectContents.
  - intros Hold i Hi Hin.
    rewrite Forall_forall in Hold. specialize (Hold i Hin).
    destruct Hi as [<-|Hi]; [lia|].
    rewrite Forall_forall in Hfresh. specialize (Hfresh i Hi). lia.
Qed.

Lemma clone_deep_copies_mappings_witness :
  let result := clone Sample.notSaved 10 Sample.stored VUndefined false in
  receiver result = Sample.stored
  /\ oid (copy result) = 10
  /\ schema (copy result) = Sample.Post
  /\ objectContents (_values (copy result))
     = [("title", VStr "Hello"); ("votes", VNum 0);
        ("tags", VArr 0 [VStr "a"; VStr "b"])]
  /\ has (_values (copy result)) "_id" = false
  /\ ~ In 3 (objectIds (_values (copy result))).
Proof.
  destruct (clone_deep_copies_mappings Sample.notSaved 10 Sample.stored
              VUndefined eq_refl eq_refl)
    as (Hthis & Hoid & _ & Hschema & Hvalues & _ & Hid & _ & _ & Hshare).
  split; [exact Hthis|].
  split; [exact Hoid|]. split; [exact Hschema|]. split; [exact Hvalues|].
  split; [exact Hid|].
  intros Hin. apply (Hshare ltac:(repeat constructor) 3).
  - right. apply in_or_app. left. exact Hin.
  - right. simpl. auto.
Defined.

(** C10, as stated, fails: the attributes are applied to the clone after the
    copy, so [clone({_modified: {x: 1}}, false)] returns an instance whose
    modified mapping is the object passed in, not a copy of the
    original's. *)
Lemma clone_attrs_counterexample :
  let attrs := VObj 7 [("_modified", VObj 8 [("x", VNum 1)])] in
  let cloned := copy (clone Sample.notSaved 10 Sample.edited attrs false) in
  _modified Sample.edited = [("title", VStr "x")]
  /\ _modified cloned = [("x", VNum 1)]
  /\ objectContents (_modified cloned)
     <> objectContents (omit (_modified Sample.edited) ["_id"]).
Proof.
  simpl. repeat split; discriminate.
Qed.

End FieldsProperties.

(* ================================================================== *)
(** * Part IV — properties of the validation cascade                   *)
(* ================================================================== *)

Module ValidationProperties.
Import Validation.

(** ** Sequencing *)

Lemma bind_ret_l {A B : Type} (a : A) (k : A -> T B) : bind (ret a) k = k a.
Proof. unfold bind, ret. now destruct (k a). Qed.

Lemma bind_assoc {A B C : Type} (m : T A) (k : A -> T B) (h : B -> T C) :
  bind (bind m k) h = bind m (fun a => bind (k a) h).
Proof.
  destruct m as [t [a|err|]]; simpl; try reflexivity.
  destruct (k a) as [t1 [b|err|]]; simpl; try reflexivity.
  destruct (h b) as [t2 r]. now rewrite app_assoc.
Qed.

Lemma bind_ext {A B : Type} (m : T A) (k k' : A -> T B) :
  (forall a, k a = k' a) -> bind m k = bind m k'.
Proof.
  intros H. destruct m as [t [a|err|]]; simpl; try reflexivity.
  now rewrite H.
Qed.

Lemma bind_ext_returns {A B : Type} (m : T A) (k k' : A -> T B) :
  (forall t a, m = (t, Returns a) -> k a = k' a) -> bind m k = bind m k'.
Proof.
  intros H. destruct m as [t [a|err|]]; simpl; try reflexivity.
  now rewrite (H t a eq_refl).
Qed.

Lemma bind_ext_returns_l {A B : Type} (m m' : T A) (k : A -> T B) :
  m = m' -> bind m k = bind m' k.
Proof. now intros ->. Qed.

Lemma forEach_app {X S : Type} (l1 l2 : list X) (body : X -> S -> T S) s :
  forEach (l1 ++ l2) body s = bind (forEach l1 body s) (forEach l2 body).
Proof.
  revert s. induction l1 as [|x r IH]; intros s; cbn [forEach app].
  - now rewrite bind_ret_l.
  - rewrite bind_assoc. apply bind_ext. exact IH.
Qed.

(** A step that returns its state untouched can be left out of the walk. *)
Lemma forEach_skip {X S : Type} (l1 l2 : list X) (x : X)
  (body : X -> S -> T S) :
  (forall s, body x s = ret s) ->
  forall s, forEach (l1 ++ x :: l2) body s = forEach (l1 ++ l2) body s.
Proof.
  intros Hx s. rewrite !forEach_app. apply bind_ext. intros s'.
  cbn [forEach]. now rewrite Hx, bind_ret_l.
Qed.

(** The walk stops at the first step that throws. *)
Lemma forEach_throws {X S : Type} (l1 l2 : list X) (x : X)
  (body : X -> S -> T S) (s : S) t err :
  (forall y, In y l1 -> exists ty, body y s = (ty, Returns s)) ->
  body x s = (t, Throws err) ->
  forEach (l1 ++ x :: l2) body s
  = ((flat_map (fun y => fst (body y s)) l1 ++ t)%list, Throws err).
Proof.
  intros Hl1 Hx. induction l1 as [|y r IH]; cbn [forEach app flat_map].
  - now rewrite Hx.
  - destruct (Hl1 y (or_introl eq_refl)) as [ty Hy]. rewrite Hy.
    cbn [bind fst]. rewrite IH by (intros z Hz; apply Hl1; now right).
    now rewrite app_assoc.
Qed.

(** ** Errors accumulate at the end of the list *)

Lemma ret_accumulates : accumulates ret.
Proof. intros errors. unfold ret, after. now rewrite app_nil_r. Qed.

Lemma catch_accumulates stop func :
  accumulates (catchValidationError stop func).
Proof.
  intros errors. destruct func as [t [[]|[ds reason|what]|]]; simpl;
    try destruct stop; simpl; rewrite ?app_nil_r; reflexivity.
Qed.

Lemma bind_accumulates (k1 k2 : list detail -> T (list detail)) :
  accumulates k1 -> accumulates k2 ->
  accumulates (fun errors => bind (k1 errors) k2).
Proof.
  intros H1 H2 errors. rewrite (H1 errors).
  destruct (k1 []) as [t [ds|err|]]; simpl; try reflexivity.
  rewrite (H2 (errors ++ ds)%list), (H2 ds).
  destruct (k2 []) as [t' [ds'|err|]]; simpl; try reflexivity.
  now rewrite app_assoc.
Qed.

Lemma forEach_accumulates {X : Type} (l : list X)
  (body : X -> list detail -> T (list detail)) :
  (forall x, accumulates (body x)) -> accumulates (forEach l body).
Proof.
  intros Hb. induction l as [|x r IH]; cbn [forEach].
  - apply ret_accumulates.
  - apply (bind_accumulates (body x) (forEach r body)); auto.
Qed.

Lemma validateName_accumulates E self Class d p stop sim n :
  accumulates (validateName E self Class d p stop sim n).
Proof.
  unfold validateName.
  destruct (isNestedFieldName E n).
  { apply forEach_accumulates. intros [nestedDoc nestedName].
    apply catch_accumulates. }
  destruct (getField E Class n) as [field|]; [|apply ret_accumulates].
  destruct (transient field); [apply ret_accumulates|].
  destruct (getOptional field d && isNil (get E d n));
    [apply ret_accumulates|].
  apply (bind_accumulates
           (catchValidationError stop
              (fieldValidation E Class d p n field (get E d n))));
    [apply catch_accumulates|].
  destruct (kind field) as [| |[|]]; try apply ret_accumulates.
  - destruct (asDocument (get E d n)); [apply catch_accumulates
                                        | apply ret_accumulates].
  - apply forEach_accumulates. intros [index element].
    destruct (asDocument element); [apply catch_accumulates
                                    | apply ret_accumulates].
Qed.

(** A walk whose steps all return collects their errors in order. *)
Lemma forEach_collects {X : Type} (l : list X)
  (body : X -> list detail -> T (list detail)) :
  (forall x, accumulates (body x)) ->
  (forall x, In x l -> exists t ds, body x [] = (t, Returns ds)) ->
  forall errors,
    forEach l body errors
    = (flat_map (fun x => fst (body x [])) l,
       Returns (errors ++ flat_map (fun x => collected (body x [])) l)%list).
Proof.
  intros Hacc. induction l as [|x r IH]; intros Hret errors;
    cbn [forEach flat_map].
  - unfold ret. now rewrite app_nil_r.
  - destruct (Hret x (or_introl eq_refl)) as (t & ds & Hx).
    rewrite (Hacc x errors), Hx. cbn [after bind collected fst].
    rewrite IH by (intros y Hy; apply Hret; now right).
    now rewrite app_assoc.
Qed.

(** ** With [stopOnFirstError], nothing is ever collected *)

Lemma catch_stop_collectsNothing func :
  collectsNothing (catchValidationError true func []).
Proof.
  intros t ds. destruct func as [t0 [[]|[ds0 reason|what]|]]; simpl;
    intros [= _ <-] || discriminate. reflexivity.
Qed.

Lemma bind_collectsNothing (m : T (list detail))
  (k : list detail -> T (list detail)) :
  collectsNothing m -> collectsNothing (k []) -> collectsNothing (bind m k).
Proof.
  intros Hm Hk t ds. destruct m as [t0 [ds0|err|]]; simpl; try discriminate.
  rewrite (Hm t0 ds0 eq_refl). destruct (k []) as [t1 r] eqn:Ek.
  intros [= _ ->]. eapply Hk. reflexivity.
Qed.

Lemma forEach_collectsNothing {X : Type} (l : list X)
  (body : X -> list detail -> T (list detail)) :
  (forall x, collectsNothing (body x [])) ->
  collectsNothing (forEach l body []).
Proof.
  intros Hb. induction l as [|x r IH]; cbn [forEach].
  - intros t ds [= _ <-]. reflexivity.
  - apply bind_collectsNothing; auto.
Qed.

Lemma validateName_stop_collectsNothing E self Class d p sim n :
  collectsNothing (validateName E self Class d p true sim n []).
Proof.
  assert (Hret : collectsNothing (ret [])).
  { intros t ds [= _ <-]. reflexivity. }
  unfold validateName.
  destruct (isNestedFieldName E n).
  { apply forEach_collectsNothing. intros [nestedDoc nestedName].
    apply catch_stop_collectsNothing. }
  destruct (getField E Class n) as [field|]; [|exact Hret].
  destruct (transient field); [exact Hret|].
  destruct (getOptional field d && isNil (get E d n)); [exact Hret|].
  apply bind_collectsNothing; [apply catch_stop_collectsNothing|].
  destruct (kind field) as [| |[|]]; try exact Hret.
  - destruct (asDocument (get E d n));
      [apply catch_stop_collectsNothing | exact Hret].
  - apply forEach_collectsNothing. intros [index element].
    destruct (asDocument element);
      [apply catch_stop_collectsNothing | exact Hret].
Qed.


(** ** The bound on the depth of the recursion

    A call that ends within the bound ends the same way under any larger
    bound. *)

Lemma bind_settled {A B : Type} (m : T A) (k : A -> T B) :
  snd (bind m k) <> OutOfFuel ->
  snd m <> OutOfFuel
  /\ forall t a, m = (t, Returns a) -> snd (k a) <> OutOfFuel.
Proof.
  destruct m as [t [a|err|]]; simpl; intros H.
  - split; [discriminate|]. intros t0 a0 [= <- <-].
    destruct (k a) as [t' r]. exact H.
  - split; [discriminate|]. intros t0 a0 [=].
  - contradiction.
Qed.

Lemma catch_settled stop func errors :
  snd (catchValidationError stop func errors) <> OutOfFuel ->
  snd func <> OutOfFuel.
Proof.
  destruct func as [t [[]|[ds reason|what]|]]; simpl; try discriminate.
  intros H _. now apply H.
Qed.

Lemma catch_same stop func func' errors :
  (snd func <> OutOfFuel -> func' = func) ->
  snd (catchValidationError stop func errors) <> OutOfFuel ->
  catchValidationError stop func' errors
  = catchValidationError stop func errors.
Proof.
  intros H Hs. now rewrite H by (eapply catch_settled; eauto).
Qed.

Lemma forEach_same {X S : Type} (l : list X) (body body' : X -> S -> T S) :
  (forall x s, snd (body x s) <> OutOfFuel -> body' x s = body x s) ->
  forall s, snd (forEach l body s) <> OutOfFuel ->
            forEach l body' s = forEach l body s.
Proof.
  intros Hb. induction l as [|x r IH]; intros s Hs; cbn [forEach] in *.
  - reflexivity.
  - destruct (bind_settled _ _ Hs) as [Hx Hr]. rewrite (Hb x s Hx).
    apply bind_ext_returns. intros t s' Hm. apply IH. eapply Hr. eauto.
Qed.

Lemma validateName_same E self self' Class d p stop sim n errors :
  (forall o, snd (self o) <> OutOfFuel -> self' o = self o) ->
  snd (validateName E self Class d p stop sim n errors) <> OutOfFuel ->
  validateName E self' Class d p stop sim n errors
  = validateName E self Class d p stop sim n errors.
Proof.
  intros Hself. unfold validateName.
  destruct (isNestedFieldName E n).
  { apply forEach_same. intros [nestedDoc nestedName] s.
    apply catch_same, Hself. }
  destruct (getField E Class n) as [field|]; [|reflexivity].
  destruct (transient field); [reflexivity|].
  destruct (getOptional field d && isNil (get E d n)); [reflexivity|].
  intros Hs. destruct (bind_settled _ _ Hs) as [_ Hk].
  apply bind_ext_returns. intros t errors1 Hm. specialize (Hk t errors1 Hm).
  revert Hk. destruct (kind field) as [| |[|]]; try reflexivity.
  - destruct (asDocument (get E d n)); [|reflexivity].
    apply catch_same, Hself.
  - apply forEach_same. intros [index element] s.
    destruct (asDocument element); [|reflexivity].
    apply catch_same, Hself.
Qed.

Lemma documentValidate_one_more E fuel :
  forall o, snd (documentValidate E fuel o) <> OutOfFuel ->
            documentValidate E (S fuel) o = documentValidate E fuel o.
Proof.
  induction fuel as [|fuel IH]; intros o Hs.
  - simpl in Hs. contradiction.
  - remember (S fuel) as fuel1. cbn [documentValidate]. subst fuel1.
    cbn [documentValidate] in Hs |- *.
    unfold documentValidateBody in *.
    destruct (negb (simulation o) && negb (isServer E)); [reflexivity|].
    destruct (bind_settled _ _ Hs) as [Hwalk _].
    apply bind_ext_returns_l.
    apply forEach_same; [|exact Hwalk].
    intros n s. apply validateName_same. exact IH.
Qed.

(** Enough fuel: the outcome reached within a bound is the outcome under any
    larger bound. *)
Lemma documentValidate_enough_fuel E fuel more o :
  snd (documentValidate E fuel o) <> OutOfFuel ->
  documentValidate E (fuel + more) o = documentValidate E fuel o.
Proof.
  intros Hs. induction more as [|more IH].
  - now rewrite Nat.add_0_r.
  - rewrite Nat.add_succ_r, documentValidate_one_more; rewrite IH; auto.
Qed.

(** ** The two error modes *)

Lemma bind_report_returns (t : list event) (errors : list detail) :
  bind (t, Returns errors) report
  = (t, match errors with
        | [] => Returns tt
        | first :: _ => Throws (ValidationError errors (message first))
        end).
Proof.
  destruct errors; simpl; now rewrite app_nil_r.
Qed.

Lemma validation_runs (E : Env) (sim : bool) :
  sim || isServer E = true -> negb sim && negb (isServer E) = false.
Proof. destruct sim, (isServer E); simpl; congruence. Qed.

(** Steps into a call of [documentValidate] that is known to run: past the
    early return, down to the walk over the fields. *)
Ltac enter_documentValidate Hruns :=
  cbn [documentValidate]; unfold documentValidateBody; cbn [simulation];
  rewrite (validation_runs _ _ Hruns);
  cbn [fields doc prefix stopOnFirstError simulation].

(** C1 — For every document, list of fields (the one passed, or the
    validation order of the class when none is) and path prefix, when the
    validation runs (simulation, or on the server): with
    [stopOnFirstError = true], [documentValidate] throws the error of the
    first field whose validation throws, having made the validation calls of
    the fields up to that one and none for the fields after it; with
    [stopOnFirstError = false] and no error other than validation errors, it
    makes the calls of every field, collects the errors of all the fields
    into one list in the order of the fields, and ends with one throw that
    carries the whole list, or returns without throwing when the list is
    empty.  A field whose own validation throws a validation error is a
    throwing step of the first mode and, for a plain field, a step that adds
    exactly the details of that error in the second. *)
Theorem documentValidate_error_modes
  (E : Env) (fuel : nat) (d : document) (given : option (list string))
  (p : string) (sim : bool) :
  sim || isServer E = true ->
  let fs :=
    match given with
    | Some names => names
    | None => getValidationOrder E (docClass d)
    end in
  let step stop n :=
    validateName E (documentValidate E fuel) (docClass d) (castNested E d)
      p stop sim n [] in
  (forall fs1 f fs2 t err,
      fs = (fs1 ++ f :: fs2)%list ->
      (forall n, In n fs1 ->
                 exists tn errors, step true n = (tn, Returns errors)) ->
      step true f = (t, Throws err) ->
      documentValidate E (S fuel) (mkOptions d given p true sim)
      = ((flat_map (fun n => fst (step true n)) fs1 ++ t)%list, Throws err))
  /\ ((forall n, In n fs -> exists tn ds, step false n = (tn, Returns ds)) ->
      let errors := flat_map (fun n => collected (step false n)) fs in
      documentValidate E (S fuel) (mkOptions d given p false sim)
      = (flat_map (fun n => fst (step false n)) fs,
         match errors with
         | [] => Returns tt
         | first :: _ => Throws (ValidationError errors (message first))
         end))
  /\ (forall n field t ds reason,
         isNestedFieldName E n = false ->
         getField E (docClass d) n = Some field ->
         transient field = false ->
         getOptional field (castNested E d)
           && isNil (get E (castNested E d) n) = false ->
         fieldValidation E (docClass d) (castNested E d) p n field
           (get E (castNested E d) n)
         = (t, Throws (ValidationError ds reason)) ->
         step true n = (t, Throws (ValidationError ds reason))
         /\ (kind field = ScalarField -> step false n = (t, Returns ds))).
Proof.
  intros Hruns fs step. split; [|split].
  - intros fs1 f fs2 t err Hfs Hquiet Hthrow.
    enter_documentValidate Hruns.
    fold fs. rewrite Hfs.
    rewrite (forEach_throws fs1 fs2 f _ [] t err);
      [reflexivity | | exact Hthrow].
    intros n Hn. destruct (Hquiet n Hn) as (tn & errors & Hstep).
    exists tn. fold (step true n). rewrite Hstep. f_equal. f_equal.
    exact (validateName_stop_collectsNothing _ _ _ _ _ _ _ _ _ Hstep).
  - intros Hret errors.
    enter_documentValidate Hruns.
    fold fs.
    rewrite forEach_collects;
      [| intros n; apply validateName_accumulates | exact Hret].
    rewrite bind_report_returns. reflexivity.
  - intros n field t ds reason Hnn Hf Ht Hopt Hown.
    subst step. cbv beta. unfold validateName.
    rewrite Hnn, Hf, Ht, Hopt, Hown. split; [reflexivity|].
    intros ->. cbn [catchValidationError bind ret app].
    now rewrite app_nil_r.
Qed.

(** In collect mode no validation error escapes a step: they are all caught
    and collected, so the only [ValidationError] the function throws is the
    one that ends it. *)
Lemma catch_collect_no_validation_error func errors :
  noValidationError (catchValidationError false func errors).
Proof.
  intros t ds reason.
  destruct func as [t0 [[]|[ds0 reason0|what]|]]; simpl; congruence.
Qed.

Lemma ret_noValidationError {A : Type} (a : A) : noValidationError (ret a).
Proof. intros t ds reason. discriminate. Qed.

Lemma bind_noValidationError {A B : Type} (m : T A) (k : A -> T B) :
  noValidationError m -> (forall a, noValidationError (k a)) ->
  noValidationError (bind m k).
Proof.
  intros Hm Hk t ds reason. destruct m as [t0 [a|err|]]; simpl.
  - specialize (Hk a). destruct (k a) as [t1 r]. intros [= _ ->].
    now apply (Hk t1 ds reason).
  - intros [= -> ->]. now apply (Hm t ds reason).
  - discriminate.
Qed.

Lemma forEach_noValidationError {X S : Type} (l : list X)
  (body : X -> S -> T S) :
  (forall x s, noValidationError (body x s)) ->
  forall s, noValidationError (forEach l body s).
Proof.
  intros Hb. induction l as [|x r IH]; intros s; cbn [forEach].
  - apply ret_noValidationError.
  - apply bind_noValidationError; auto.
Qed.

Lemma validateName_collect_noValidationError E self Class d p sim n errors :
  noValidationError (validateName E self Class d p false sim n errors).
Proof.
  unfold validateName.
  destruct (isNestedFieldName E n).
  { apply forEach_noValidationError. intros [nestedDoc nestedName] s.
    apply catch_collect_no_validation_error. }
  destruct (getField E Class n) as [field|]; [|apply ret_noValidationError].
  destruct (transient field); [apply ret_noValidationError|].
  destruct (getOptional field d && isNil (get E d n));
    [apply ret_noValidationError|].
  apply bind_noValidationError; [apply catch_collect_no_validation_error|].
  intros errors1.
  destruct (kind field) as [| |[|]]; try apply ret_noValidationError.
  - destruct (asDocument (get E d n));
      [apply catch_collect_no_validation_error | apply ret_noValidationError].
  - apply forEach_noValidationError. intros [index element] s.
    destruct (asDocument element);
      [apply catch_collect_no_validation_error | apply ret_noValidationError].
Qed.

(** ** Skipped fields *)

Lemma validateName_skipped E self Class d p stop sim n errors :
  isNestedFieldName E n = false ->
  skipped E Class d n ->
  validateName E self Class d p stop sim n errors = ret errors.
Proof.
  intros Hnn Hskip. unfold validateName. rewrite Hnn.
  destruct Hskip as [-> | [(field & -> & Ht) | (field & -> & Ho & Hv)]].
  - reflexivity.
  - now rewrite Ht.
  - rewrite Ho, Hv. now destruct (transient field).
Qed.

Lemma fieldValidation_type_level_throws E Class d p n field v err :
  validate field d (p ++ n) n v = Some err ->
  fieldValidation E Class d p n field v = ([TypeLevel (p ++ n)], Throws err).
Proof.
  intros H. unfold fieldValidation. rewrite H. reflexivity.
Qed.

(** C7 — For every document and every name that is not a nested-field
    pattern: a name that resolves to no field, a transient field (whatever
    its value and its validators) and an optional field whose value is
    absent are skipped silently: validating a list with such a name in it
    makes the same calls and ends the same way as validating the list
    without it, and validating the name alone makes no call and returns.
    An optional, non-transient field whose value is present and rejected by
    its type-level validator does produce the error when the validation
    runs: thrown at once with [stopOnFirstError], and, for a plain field,
    collected and thrown at the end without. *)
Theorem documentValidate_silent_skips
  (E : Env) (fuel : nat) (d : document) (p : string) (sim : bool)
  (n : string) :
  isNestedFieldName E n = false ->
  let d0 := castNested E d in
  (skipped E (docClass d) d0 n ->
   forall stop,
     (forall fs1 fs2,
         documentValidate E (S fuel)
           (mkOptions d (Some (fs1 ++ n :: fs2)%list) p stop sim)
         = documentValidate E (S fuel)
             (mkOptions d (Some (fs1 ++ fs2)%list) p stop sim))
     /\ documentValidate E (S fuel) (mkOptions d (Some [n]) p stop sim)
        = ([], Returns tt))
  /\ (forall field first rest reason,
         sim || isServer E = true ->
         getField E (docClass d) n = Some field ->
         transient field = false ->
         getOptional field d0 = true ->
         isNil (get E d0 n) = false ->
         validate field d0 (p ++ n) n (get E d0 n)
         = Some (ValidationError (first :: rest) reason) ->
         documentValidate E (S fuel) (mkOptions d (Some [n]) p true sim)
         = ([TypeLevel (p ++ n)],
            Throws (ValidationError (first :: rest) reason))
         /\ (kind field = ScalarField ->
             documentValidate E (S fuel) (mkOptions d (Some [n]) p false sim)
             = ([TypeLevel (p ++ n)],
                Throws (ValidationError (first :: rest) (message first))))).
Proof.
  intros Hnn d0. split.
  - intros Hskip stop.
    assert (Hlists : forall fs1 fs2,
               documentValidate E (S fuel)
                 (mkOptions d (Some (fs1 ++ n :: fs2)%list) p stop sim)
               = documentValidate E (S fuel)
                   (mkOptions d (Some (fs1 ++ fs2)%list) p stop sim)).
    { intros fs1 fs2. cbn [documentValidate]. unfold documentValidateBody.
      cbn [fields doc prefix stopOnFirstError simulation].
      destruct (negb sim && negb (isServer E)); [reflexivity|].
      rewrite forEach_skip; [reflexivity|].
      intros s. now apply validateName_skipped. }
    split; [exact Hlists|].
    pose proof (Hlists [] []) as Hone. cbn [app] in Hone. rewrite Hone.
    cbn [documentValidate]. unfold documentValidateBody.
    cbn [fields doc prefix stopOnFirstError simulation].
    now destruct (negb sim && negb (isServer E)).
  - intros field first rest reason Hruns Hf Ht Ho Hv Hbad.
    assert (Hown := fieldValidation_type_level_throws E (docClass d) d0 p n
                      field _ _ Hbad).
    split; [|intros Hkind];
      enter_documentValidate Hruns; cbn [forEach];
      unfold validateName; fold d0;
      rewrite Hnn, Hf, Ht, Ho, Hv; cbn [andb]; rewrite Hown.
    + reflexivity.
    + rewrite Hkind. reflexivity.
Qed.

(** ** Paths: every validator is called with a name under the prefix *)

Lemma append_assoc (a b c : string) : ((a ++ b) ++ c = a ++ (b ++ c))%string.
Proof. induction a as [|x a IH]; simpl; [reflexivity | now rewrite IH]. Qed.

Lemma under_append (p x : string) : under p (p ++ x).
Proof. now exists x. Qed.

Lemma under_weaken (p x n : string) : under (p ++ x) n -> under p n.
Proof. intros [rest ->]. exists (x ++ rest). apply append_assoc. Qed.

Lemma tracedUnder_weaken {A : Type} (p x : string) (m : T A) :
  tracedUnder (p ++ x) m -> tracedUnder p m.
Proof.
  unfold tracedUnder. apply Forall_impl. intros e. apply under_weaken.
Qed.

Lemma tracedUnder_ret {A : Type} (p : string) (a : A) : tracedUnder p (ret a).
Proof. constructor. Qed.

Lemma tracedUnder_throw {A : Type} (p : string) err :
  tracedUnder p (@throw A err).
Proof. constructor. Qed.

Lemma tracedUnder_bind {A B : Type} (p : string) (m : T A) (k : A -> T B) :
  tracedUnder p m -> (forall a, tracedUnder p (k a)) ->
  tracedUnder p (bind m k).
Proof.
  unfold tracedUnder. intros Hm Hk.
  destruct m as [t [a|err|]]; simpl in *; try exact Hm.
  specialize (Hk a). destruct (k a) as [t' r]. simpl in *.
  apply Forall_app. now split.
Qed.

Lemma tracedUnder_catch (p : string) stop func errors :
  tracedUnder p func -> tracedUnder p (catchValidationError stop func errors).
Proof.
  unfold tracedUnder.
  destruct func as [t [[]|[ds reason|what]|]]; simpl; try destruct stop;
    auto.
Qed.

Lemma tracedUnder_forEach {X S : Type} (p : string) (l : list X)
  (body : X -> S -> T S) :
  (forall x s, In x l -> tracedUnder p (body x s)) ->
  forall s, tracedUnder p (forEach l body s).
Proof.
  induction l as [|x r IH]; intros Hb s; cbn [forEach].
  - apply tracedUnder_ret.
  - apply tracedUnder_bind; [apply Hb; now left|].
    intros s'. apply IH. intros y s0 Hy. apply Hb. now right.
Qed.

Lemma tracedUnder_called (p : string) (r : option exn) :
  tracedUnder p (called r).
Proof. destruct r; constructor. Qed.

Lemma fieldValidation_tracedUnder E Class d p n field v :
  tracedUnder p (fieldValidation E Class d p n field v).
Proof.
  unfold fieldValidation.
  apply tracedUnder_bind; [repeat constructor; apply under_append|].
  intros _. apply tracedUnder_bind; [apply tracedUnder_called|].
  intros _. apply tracedUnder_forEach. intros rule [] _.
  destruct (Validators E (vtype rule)); [|apply tracedUnder_throw].
  apply tracedUnder_bind; [repeat constructor; apply under_append|].
  intros _. apply tracedUnder_called.
Qed.

Lemma validateName_tracedUnder E self Class d p stop sim n errors :
  (forall o, tracedUnder (prefix o) (self o)) ->
  tracedUnder p (validateName E self Class d p stop sim n errors).
Proof.
  intros Hself. unfold validateName.
  destruct (isNestedFieldName E n).
  { apply tracedUnder_forEach. intros [nestedDoc nestedName] s _.
    apply tracedUnder_catch.
    eapply tracedUnder_weaken. exact (Hself (mkOptions _ _ _ _ _)). }
  destruct (getField E Class n) as [field|]; [|apply tracedUnder_ret].
  destruct (transient field); [apply tracedUnder_ret|].
  destruct (getOptional field d && isNil (get E d n));
    [apply tracedUnder_ret|].
  apply tracedUnder_bind;
    [apply tracedUnder_catch, fieldValidation_tracedUnder|].
  intros errors1.
  destruct (kind field) as [| |[|]]; try apply tracedUnder_ret.
  - destruct (asDocument (get E d n)); [|apply tracedUnder_ret].
    apply tracedUnder_catch.
    eapply tracedUnder_weaken. exact (Hself (mkOptions _ _ _ _ _)).
  - apply tracedUnder_forEach. intros [index element] s _.
    destruct (asDocument element); [|apply tracedUnder_ret].
    apply tracedUnder_catch.
    eapply tracedUnder_weaken. exact (Hself (mkOptions _ _ _ _ _)).
Qed.

(** Every validation call [documentValidate] makes, at any depth, is given
    a name that extends the path prefix of the call. *)
Lemma documentValidate_tracedUnder E fuel :
  forall o, tracedUnder (prefix o) (documentValidate E fuel o).
Proof.
  induction fuel as [|fuel IH]; intros o; cbn [documentValidate].
  - constructor.
  - unfold documentValidateBody.
    destruct (negb (simulation o) && negb (isServer E));
      [apply tracedUnder_ret|].
    apply tracedUnder_bind.
    + apply tracedUnder_forEach. intros n s _.
      now apply validateName_tracedUnder.
    + intros errors. destruct errors; constructor.
Qed.

(** ** Nested documents *)

Lemma indexed_nth (l : list value) (i : nat) (element : value) :
  nth_error l i = Some element -> In (indexString i, element) (indexed l).
Proof.
  intros H. unfold indexed.
  assert (Hgen : forall start,
             In (indexString (start + i), element)
                (combine (map indexString (seq start (length l))) l)).
  { revert i H. induction l as [|x r IH]; intros [|i] H start;
      simpl in *; try discriminate.
    - injection H as ->. rewrite Nat.add_0_r. now left.
    - right. rewrite <- Nat.add_succ_comm. now apply IH. }
  exact (Hgen 0).
Qed.

Lemma indexed_split (l1 l2 : list value) (x : value) :
  exists rest,
    indexed (l1 ++ x :: l2)
    = (indexed l1 ++ (indexString (length l1), x) :: rest)%list.
Proof.
  unfold indexed.
  assert (H : forall start, exists rest,
             combine (map indexString
                        (seq start (length (l1 ++ x :: l2)%list)))
                     (l1 ++ x :: l2)
             = (combine (map indexString (seq start (length l1))) l1
                ++ (indexString (start + length l1), x) :: rest)%list).
  { induction l1 as [|y r IH]; intros start.
    - cbn [app length seq map combine]. rewrite Nat.add_0_r.
      eexists. reflexivity.
    - destruct (IH (S start)) as [rest Hrest]. exists rest.
      cbn [app length seq map combine]. rewrite Hrest.
      now rewrite Nat.add_succ_comm. }
  exact (H 0).
Qed.

Lemma bind_returns {A B : Type} (t : list event) (a : A) (k : A -> T B) :
  bind (t, Returns a) k = ((t ++ fst (k a))%list, snd (k a)).
Proof. cbn [bind]. now destruct (k a). Qed.

Lemma catch_stop_throws (t : list event) (err : exn) (errors : list detail) :
  catchValidationError true (t, Throws err) errors = (t, Throws err).
Proof. now destruct err. Qed.

Lemma report_reported (errors : list detail) :
  report errors = ([], reported errors).
Proof. now destruct errors. Qed.

(** What [catchValidationError] leaves in collect mode of a run that ended
    as [documentValidate] ends after collecting [ds]. *)
Lemma catch_collect_reported (t : list event) (ds errors : list detail) :
  catchValidationError false (t, reported ds) errors
  = (t, Returns (errors ++ ds)%list).
Proof.
  destruct ds; cbn [reported catchValidationError]; [|reflexivity].
  now rewrite app_nil_r.
Qed.

(** A call that runs is the walk over its fields followed by the report. *)
Lemma documentValidate_walk E fuel d given p stop sim :
  sim || isServer E = true ->
  documentValidate E (S fuel) (mkOptions d given p stop sim)
  = (errors <- forEach
                 match given with
                 | Some names => names
                 | None => getValidationOrder E (docClass d)
                 end
                 (validateName E (documentValidate E fuel) (docClass d)
                    (castNested E d) p stop sim) [] ;;
     report errors).
Proof. intros Hruns. enter_documentValidate Hruns. reflexivity. Qed.

Lemma forEach_at {X S : Type} (l1 l2 : list X) (x : X)
  (body : X -> S -> T S) (s : S) :
  forEach (l1 ++ x :: l2) body s
  = (s0 <- forEach l1 body s ;; s1 <- body x s0 ;; forEach l2 body s1).
Proof. rewrite forEach_app. reflexivity. Qed.

(** The step of a validated Object field that holds a document. *)
Lemma validateName_object E self Class d p stop sim n field nested errors :
  validated E Class d n field ->
  kind field = ObjectField ->
  asDocument (get E d n) = Some nested ->
  validateName E self Class d p stop sim n errors
  = (errors1 <- catchValidationError stop
                  (fieldValidation E Class d p n field (get E d n)) errors ;;
     catchValidationError stop
       (self (mkOptions nested (Some (getValidationOrder E (docClass nested)))
                (p ++ fname field ++ ".") stop true))
       errors1).
Proof.
  intros (Hnn & Hf & Ht & Hopt) Hkind Hdoc. unfold validateName.
  rewrite Hnn, Hf, Ht, Hopt, Hkind, Hdoc. reflexivity.
Qed.

(** The step of a validated List-of-class field. *)
Lemma validateName_list E self Class d p stop sim n field errors :
  validated E Class d n field ->
  kind field = ListField true ->
  validateName E self Class d p stop sim n errors
  = (errors1 <- catchValidationError stop
                  (fieldValidation E Class d p n field (get E d n)) errors ;;
     forEach (eachEntries (get E d n))
       (fun entry errors2 =>
          let '(index, element) := entry in
          match asDocument element with
          | Some nested =>
              catchValidationError stop
                (self (mkOptions nested
                         (Some (getValidationOrder E (docClass nested)))
                         (p ++ fname field ++ "." ++ index ++ ".") stop true))
                errors2
          | None => ret errors2
          end)
       errors1).
Proof.
  intros (Hnn & Hf & Ht & Hopt) Hkind. unfold validateName.
  rewrite Hnn, Hf, Ht, Hopt, Hkind. reflexivity.
Qed.

(** In stop mode, when the fields before [m] pass and the type-level
    validator of [m] rejects it, the call ends there: the last validation
    call made is that one, with the prefixed name, and what the validator
    threw is thrown. *)
Lemma documentValidate_rejected E fuel d p sim ms1 m ms2 inner err tm em :
  sim || isServer E = true ->
  forEach ms1
    (validateName E (documentValidate E fuel) (docClass d) (castNested E d)
       p true sim) []
  = (tm, Returns em) ->
  validated E (docClass d) (castNested E d) m inner ->
  validate inner (castNested E d) (p ++ m) m (get E (castNested E d) m)
  = Some err ->
  documentValidate E (S fuel)
    (mkOptions d (Some (ms1 ++ m :: ms2)%list) p true sim)
  = ((tm ++ [TypeLevel (p ++ m)])%list, Throws err).
Proof.
  intros Hruns Hms1 (Hnn & Hf & Ht & Hopt) Hbad.
  assert (Hm : validateName E (documentValidate E fuel) (docClass d)
                 (castNested E d) p true sim m em
               = ([TypeLevel (p ++ m)], Throws err)).
  { unfold validateName. rewrite Hnn, Hf, Ht, Hopt.
    rewrite (fieldValidation_type_level_throws _ _ _ _ _ _ _ _ Hbad).
    now rewrite catch_stop_throws. }
  rewrite documentValidate_walk by exact Hruns.
  rewrite forEach_at, Hms1, bind_returns, Hm. reflexivity.
Qed.

(** In collect mode, when [m] is a plain field whose type-level validator
    throws a validation error and the other fields end without any other
    error, the details of that error are reported at the place of [m]. *)
Lemma documentValidate_collected E fuel d p sim ms1 m ms2 inner ds reason
  tm em tr er :
  sim || isServer E = true ->
  forEach ms1
    (validateName E (documentValidate E fuel) (docClass d) (castNested E d)
       p false sim) []
  = (tm, Returns em) ->
  validated E (docClass d) (castNested E d) m inner ->
  kind inner = ScalarField ->
  validate inner (castNested E d) (p ++ m) m (get E (castNested E d) m)
  = Some (ValidationError ds reason) ->
  forEach ms2
    (validateName E (documentValidate E fuel) (docClass d) (castNested E d)
       p false sim) []
  = (tr, Returns er) ->
  documentValidate E (S fuel)
    (mkOptions d (Some (ms1 ++ m :: ms2)%list) p false sim)
  = ((tm ++ TypeLevel (p ++ m) :: tr)%list, reported (em ++ ds ++ er)).
Proof.
  intros Hruns Hms1 (Hnn & Hf & Ht & Hopt) Hkind Hbad Hms2.
  assert (Hm : validateName E (documentValidate E fuel) (docClass d)
                 (castNested E d) p false sim m em
               = ([TypeLevel (p ++ m)], Returns (em ++ ds)%list)).
  { unfold validateName. rewrite Hnn, Hf, Ht, Hopt, Hkind.
    rewrite (fieldValidation_type_level_throws _ _ _ _ _ _ _ _ Hbad).
    reflexivity. }
  pose proof (forEach_accumulates ms2 _
                (fun x => validateName_accumulates E
                            (documentValidate E fuel) (docClass d)
                            (castNested E d) p false sim x)
                (em ++ ds)%list) as Hacc.
  rewrite documentValidate_walk by exact Hruns.
  rewrite forEach_at, Hms1, bind_returns, Hm, bind_returns, Hacc, Hms2.
  cbn [after fst snd]. rewrite bind_returns, report_reported.
  cbn [fst snd]. now rewrite app_nil_r, <- app_assoc.
Qed.

(** C2 — For every call of [documentValidate] that runs, whatever the
    error mode and the list of fields, and every validated field [n] of
    that list (with [fs1] the fields before it and [fs2] those after).

    When [n] is an Object field whose value is a class instance, the call
    is: the walk over [fs1], the field's own validation, then
    [documentValidate] on that instance, over its own validation order, with
    the prefix extended by the field name and a dot and with the caller's
    [stopOnFirstError], then the walk over [fs2] and the report.  With
    [stopOnFirstError] an error of the nested run ends the call and is the
    error thrown; without it the details of a validation error of the nested
    run are reported among those of the call, at the place of the field.  A
    sub-field [m] of the instance that its type-level validator rejects is
    validated, and reported, under the name [prefix + field + "." + m]: with
    [stopOnFirstError] when the sub-fields before it pass, without it when
    [m] is a plain field and the other fields end without any other error.

    When [n] is a List-of-class field, the nested run is made for each
    element that is a class instance, in order, with prefix
    [prefix + field + "." + index + "."], where [index] is the position of
    the element in the array, and with [stopOnFirstError] a rejected
    sub-field [m] of the element is reported under
    [prefix + field + "." + index + "." + m]. *)
Theorem documentValidate_nested_prefix
  (E : Env) (fuel : nat) (d : document) (given : option (list string))
  (p : string) (stop sim : bool) (fs1 fs2 : list string) (n : string)
  (field : Field) :
  sim || isServer E = true ->
  match given with
  | Some names => names
  | None => getValidationOrder E (docClass d)
  end = (fs1 ++ n :: fs2)%list ->
  let d0 := castNested E d in
  validated E (docClass d) d0 n field ->
  let outer := documentValidate E (S fuel) (mkOptions d given p stop sim) in
  let step :=
    validateName E (documentValidate E fuel) (docClass d) d0 p stop sim in
  let own :=
    catchValidationError stop
      (fieldValidation E (docClass d) d0 p n field (get E d0 n)) in
  let nestedRun nested path :=
    documentValidate E fuel
      (mkOptions nested (Some (getValidationOrder E (docClass nested)))
         path stop true) in
  let nestedStep fuel' nested path :=
    validateName E (documentValidate E fuel') (docClass nested)
      (castNested E nested) path stop true in
  let rejects nested path m inner err :=
    validated E (docClass nested) (castNested E nested) m inner
    /\ validate inner (castNested E nested) (path ++ m) m
         (get E (castNested E nested) m) = Some err in
  (kind field = ObjectField ->
   forall nested,
     asDocument (get E d0 n) = Some nested ->
     let path := p ++ fname field ++ "." in
     outer
     = (errors0 <- forEach fs1 step [] ;;
        errors1 <- own errors0 ;;
        errors2 <- catchValidationError stop (nestedRun nested path)
                     errors1 ;;
        errors3 <- forEach fs2 step errors2 ;;
        report errors3)
     /\ (forall tb eb t0 e1,
           forEach fs1 step [] = (tb, Returns eb) ->
           own eb = (t0, Returns e1) ->
           (forall ti err,
               stop = true ->
               nestedRun nested path = (ti, Throws err) ->
               outer = ((tb ++ t0 ++ ti)%list, Throws err))
           /\ (forall ti ds reason ta ea,
                  stop = false ->
                  nestedRun nested path
                  = (ti, Throws (ValidationError ds reason)) ->
                  forEach fs2 step [] = (ta, Returns ea) ->
                  outer = ((tb ++ t0 ++ ti ++ ta)%list,
                           reported (e1 ++ ds ++ ea)))
           /\ (forall fuel' ms1 m ms2 inner err tm em,
                  fuel = S fuel' ->
                  stop = true ->
                  getValidationOrder E (docClass nested)
                  = (ms1 ++ m :: ms2)%list ->
                  forEach ms1 (nestedStep fuel' nested path) []
                  = (tm, Returns em) ->
                  rejects nested path m inner err ->
                  outer
                  = ((tb ++ t0 ++ tm ++ [TypeLevel (path ++ m)])%list,
                     Throws err))
           /\ (forall fuel' ms1 m ms2 inner ds reason tm em tr er ta ea,
                  fuel = S fuel' ->
                  stop = false ->
                  getValidationOrder E (docClass nested)
                  = (ms1 ++ m :: ms2)%list ->
                  forEach ms1 (nestedStep fuel' nested path) []
                  = (tm, Returns em) ->
                  rejects nested path m inner (ValidationError ds reason) ->
                  kind inner = ScalarField ->
                  forEach ms2 (nestedStep fuel' nested path) []
                  = (tr, Returns er) ->
                  forEach fs2 step [] = (ta, Returns ea) ->
                  outer
                  = ((tb ++ t0
                         ++ (tm ++ TypeLevel (path ++ m) :: tr) ++ ta)%list,
                     reported (e1 ++ (em ++ ds ++ er) ++ ea)))))
  /\ (kind field = ListField true ->
      let elementStep (entry : string * value) errors :=
        let '(index, element) := entry in
        match asDocument element with
        | Some nested =>
            catchValidationError stop
              (nestedRun nested (p ++ fname field ++ "." ++ index ++ "."))
              errors
        | None => ret errors
        end in
      outer
      = (errors0 <- forEach fs1 step [] ;;
         errors1 <- own errors0 ;;
         errors2 <- forEach (eachEntries (get E d0 n)) elementStep errors1 ;;
         errors3 <- forEach fs2 step errors2 ;;
         report errors3)
      /\ (forall elems i element,
             get E d0 n = VArr elems ->
             nth_error elems i = Some element ->
             In (indexString i, element) (eachEntries (get E d0 n)))
      /\ (forall fuel' before element rest nested ms1 m ms2 inner err
                 tb eb t0 e1 te ee tm em,
             fuel = S fuel' ->
             stop = true ->
             get E d0 n = VArr (before ++ element :: rest) ->
             asDocument element = Some nested ->
             let path :=
               p ++ fname field ++ "." ++ indexString (length before)
                 ++ "." in
             getValidationOrder E (docClass nested)
             = (ms1 ++ m :: ms2)%list ->
             forEach ms1 (nestedStep fuel' nested path) []
             = (tm, Returns em) ->
             rejects nested path m inner err ->
             forEach fs1 step [] = (tb, Returns eb) ->
             own eb = (t0, Returns e1) ->
             forEach (indexed before) elementStep e1 = (te, Returns ee) ->
             outer
             = ((tb ++ t0 ++ te ++ tm ++ [TypeLevel (path ++ m)])%list,
                Throws err))).
Proof.
  intros Hruns Hfs d0 Hn outer step own nestedRun nestedStep rejects.
  assert (Hwalk : outer
                  = (errors0 <- forEach fs1 step [] ;;
                     errors1 <- step n errors0 ;;
                     errors3 <- forEach fs2 step errors1 ;;
                     report errors3)).
  { unfold outer. rewrite documentValidate_walk by exact Hruns.
    rewrite Hfs. fold d0. fold step. rewrite forEach_at, !bind_assoc.
    apply bind_ext. intros errors0. now rewrite bind_assoc. }
  assert (Hacc : forall errors,
             forEach fs2 step errors = after errors (forEach fs2 step [])).
  { intros errors. apply forEach_accumulates. intros x.
    apply validateName_accumulates. }
  split.
  - intros Hkind nested Hdoc path.
    assert (Heq : outer
                  = (errors0 <- forEach fs1 step [] ;;
                     errors1 <- own errors0 ;;
                     errors2 <- catchValidationError stop
                                  (nestedRun nested path) errors1 ;;
                     errors3 <- forEach fs2 step errors2 ;;
                     report errors3)).
    { rewrite Hwalk. apply bind_ext. intros errors0. unfold step at 1.
      rewrite (validateName_object _ _ _ _ _ _ _ _ _ nested errors0 Hn Hkind
                 Hdoc).
      now rewrite bind_assoc. }
    split; [exact Heq|].
    intros tb eb t0 e1 Hbefore Hown.
    assert (Hstop : forall ti err,
               stop = true ->
               nestedRun nested path = (ti, Throws err) ->
               outer = ((tb ++ t0 ++ ti)%list, Throws err)).
    { intros ti err Hs Hnested. rewrite Heq, Hbefore, bind_returns, Hown,
        bind_returns, Hnested, Hs, catch_stop_throws.
      reflexivity. }
    assert (Hcollect : forall ti ds ta ea,
               stop = false ->
               nestedRun nested path = (ti, reported ds) ->
               forEach fs2 step [] = (ta, Returns ea) ->
               outer = ((tb ++ t0 ++ ti ++ ta)%list,
                        reported (e1 ++ ds ++ ea))).
    { intros ti ds ta ea Hs Hnested Hafter.
      rewrite Heq, Hbefore, bind_returns, Hown, bind_returns, Hnested, Hs,
        catch_collect_reported, bind_returns, Hacc, Hafter.
      cbn [after]. rewrite bind_returns, report_reported.
      cbn [fst snd]. now rewrite app_nil_r, <- app_assoc. }
    split; [exact Hstop|]. split; [|split].
    + intros ti ds reason ta ea Hs Hnested Hafter.
      rewrite Heq, Hbefore, bind_returns, Hown, bind_returns, Hnested, Hs.
      cbn [catchValidationError]. rewrite bind_returns, Hacc, Hafter.
      cbn [after]. rewrite bind_returns, report_reported.
      cbn [fst snd]. now rewrite app_nil_r, <- app_assoc.
    + intros fuel' ms1 m ms2 inner err tm em Hfuel Hs Horder Hms1
        (Hm & Hbad).
      apply Hstop; [exact Hs|]. unfold nestedRun. rewrite Hfuel, Hs, Horder.
      unfold nestedStep in Hms1. rewrite Hs in Hms1.
      now apply (documentValidate_rejected E fuel' nested path true ms1 m
                   ms2 inner err tm em).
    + intros fuel' ms1 m ms2 inner ds reason tm em tr er ta ea Hfuel Hs
        Horder Hms1 (Hm & Hbad) Hkindm Hms2 Hafter.
      apply Hcollect; [exact Hs | | exact Hafter].
      unfold nestedRun. rewrite Hfuel, Hs, Horder.
      unfold nestedStep in Hms1, Hms2. rewrite Hs in Hms1, Hms2.
      now apply (documentValidate_collected E fuel' nested path true ms1 m
                   ms2 inner ds reason tm em tr er).
  - intros Hkind elementStep.
    assert (Heq : outer
                  = (errors0 <- forEach fs1 step [] ;;
                     errors1 <- own errors0 ;;
                     errors2 <- forEach (eachEntries (get E d0 n))
                                  elementStep errors1 ;;
                     errors3 <- forEach fs2 step errors2 ;;
                     report errors3)).
    { rewrite Hwalk. apply bind_ext. intros errors0. unfold step at 1.
      rewrite (validateName_list _ _ _ _ _ _ _ _ _ errors0 Hn Hkind).
      now rewrite bind_assoc. }
    split; [exact Heq|]. split.
    + intros elems i element -> Hnth. now apply indexed_nth.
    + intros fuel' before element rest nested ms1 m ms2 inner err
        tb eb t0 e1 te ee tm em
        Hfuel Hs Harr Hdoc path Horder Hms1 (Hm & Hbad) Hbefore Hown Helems.
      destruct (indexed_split before rest element) as [others Hsplit].
      rewrite Heq, Hbefore, bind_returns, Hown, bind_returns, Harr.
      cbn [eachEntries]. rewrite Hsplit, forEach_at, Helems, bind_returns.
      cbn [elementStep]. rewrite Hdoc. unfold nestedRun.
      rewrite Hfuel, Hs, Horder.
      unfold nestedStep in Hms1. rewrite Hs in Hms1.
      pose proof (documentValidate_rejected E fuel' nested path true ms1 m
                    ms2 inner err tm em eq_refl Hms1 Hm Hbad) as Hrun.
      unfold path in Hrun. rewrite Hrun, catch_stop_throws. reflexivity.
Qed.

(** ** The properties on the sample documents *)

Lemma documentValidate_error_modes_witness :
  let both := Some ["name"; "email"] in
  documentValidate Sample.env 3 (mkOptions Sample.incomplete both "" true true)
  = ([TypeLevel "name"],
     Throws (ValidationError [Sample.mustBeString "name"] "must be a string"))
  /\ documentValidate Sample.env 3
       (mkOptions Sample.incomplete both "" false true)
     = ([TypeLevel "name"; TypeLevel "email"],
        Throws (ValidationError
                  [Sample.mustBeString "name"; Sample.mustBeString "email"]
                  "must be a string")).
Proof.
  destruct (documentValidate_error_modes Sample.env 2 Sample.incomplete
              (Some ["name"; "email"]) "" true eq_refl)
    as (Hstop & Hcollect & _).
  split.
  - apply (Hstop [] "name" ["email"] [TypeLevel "name"]
             (ValidationError [Sample.mustBeString "name"]
                "must be a string") eq_refl);
      [intros n [] | reflexivity].
  - apply Hcollect. intros n [<-|[<-|[]]]; do 2 eexists; reflexivity.
Defined.

Lemma documentValidate_silent_skips_witness :
  documentValidate Sample.env 3
    (mkOptions Sample.incomplete (Some ["password"]) "" true true)
  = ([], Returns tt)
  /\ documentValidate Sample.env 3
       (mkOptions Sample.incomplete (Some ["nickname"]) "" true true)
     = ([], Returns tt)
  /\ documentValidate Sample.env 3
       (mkOptions Sample.incomplete (Some ["unknown"]) "" false true)
     = ([], Returns tt)
  /\ documentValidate Sample.env 3
       (mkOptions Sample.nicknamed (Some ["nickname"]) "" true true)
     = ([TypeLevel "nickname"],
        Throws (ValidationError [Sample.mustBeString "nickname"]
                                "must be a string"))
  /\ documentValidate Sample.env 3
       (mkOptions Sample.nicknamed (Some ["nickname"]) "" false true)
     = ([TypeLevel "nickname"],
        Throws (ValidationError [Sample.mustBeString "nickname"]
                                "must be a string")).
Proof.
  split; [|split; [|split]].
  - apply (documentValidate_silent_skips Sample.env 2 Sample.incomplete ""
             true "password" eq_refl).
    right. left. eexists. split; reflexivity.
  - apply (documentValidate_silent_skips Sample.env 2 Sample.incomplete ""
             true "nickname" eq_refl).
    right. right. eexists. split; [reflexivity | split; reflexivity].
  - apply (documentValidate_silent_skips Sample.env 2 Sample.incomplete ""
             true "unknown" eq_refl).
    left. reflexivity.
  - destruct (documentValidate_silent_skips Sample.env 2 Sample.nicknamed ""
                true "nickname" eq_refl) as [_ Hbad].
    destruct (Hbad (mkField "nickname" false Sample.always ScalarField
                      Sample.nonEmptyString)
                (Sample.mustBeString "nickname") [] "must be a string"
                eq_refl eq_refl eq_refl eq_refl eq_refl eq_refl)
      as [Hstop Hcollect].
    split; [exact Hstop | exact (Hcollect eq_refl)].
Defined.

Lemma documentValidate_nested_prefix_witness :
  documentValidate Sample.env 3 (mkOptions Sample.misplaced None "" true true)
  = ([TypeLevel "name"; Validation "minLength" "name"; TypeLevel "email";
      TypeLevel "address"; TypeLevel "address.city"],
     Throws (ValidationError [Sample.mustBeString "address.city"]
                             "must be a string"))
  /\ documentValidate Sample.env 3
       (mkOptions Sample.misplaced None "" false true)
     = ([TypeLevel "name"; Validation "minLength" "name"; TypeLevel "email";
         TypeLevel "address"; TypeLevel "address.city"; TypeLevel "phones";
         TypeLevel "phones.0.number"; TypeLevel "phones.1.number"],
        Throws (ValidationError [Sample.mustBeString "address.city";
                                 Sample.mustBeString "phones.1.number"]
                                "must be a string"))
  /\ documentValidate Sample.env 3
       (mkOptions Sample.misplaced (Some ["phones"]) "" true true)
     = ([TypeLevel "phones"; TypeLevel "phones.0.number";
         TypeLevel "phones.1.number"],
        Throws (ValidationError [Sample.mustBeString "phones.1.number"]
                                "must be a string")).
Proof.
  pose (address := mkField "address" false Sample.never ObjectField
                     Sample.anything).
  pose (phones := mkField "phones" false Sample.never (ListField true)
                    Sample.anything).
  pose (city := mkField "city" false Sample.never ScalarField
                  Sample.nonEmptyString).
  pose (number := mkField "number" false Sample.never ScalarField
                    Sample.nonEmptyString).
  pose (before := [TypeLevel "name"; Validation "minLength" "name";
                   TypeLevel "email"]).
  split; [|split].
  - destruct (documentValidate_nested_prefix Sample.env 2 Sample.misplaced
                None "" true true ["name"; "email"; "nickname"; "password"]
                ["phones"] "address" address eq_refl eq_refl
                (conj eq_refl (conj eq_refl (conj eq_refl eq_refl))))
      as [Hobject _].
    destruct (Hobject eq_refl (mkDoc "Address" [("city", VStr "")]) eq_refl)
      as [_ Hnested].
    destruct (Hnested before [] [TypeLevel "address"] [] eq_refl eq_refl)
      as (_ & _ & Hpath & _).
    exact (Hpath 1 [] "city" [] city
             (ValidationError [Sample.mustBeString "address.city"]
                "must be a string")
             [] [] eq_refl eq_refl eq_refl eq_refl
             (conj (conj eq_refl (conj eq_refl (conj eq_refl eq_refl)))
                   eq_refl)).
  - destruct (documentValidate_nested_prefix Sample.env 2 Sample.misplaced
                None "" false true ["name"; "email"; "nickname"; "password"]
                ["phones"] "address" address eq_refl eq_refl
                (conj eq_refl (conj eq_refl (conj eq_refl eq_refl))))
      as [Hobject _].
    destruct (Hobject eq_refl (mkDoc "Address" [("city", VStr "")]) eq_refl)
      as [_ Hnested].
    destruct (Hnested before [] [TypeLevel "address"] [] eq_refl eq_refl)
      as (_ & _ & _ & Hpath).
    exact (Hpath 1 [] "city" [] city [Sample.mustBeString "address.city"]
             "must be a string" [] [] [] []
             [TypeLevel "phones"; TypeLevel "phones.0.number";
              TypeLevel "phones.1.number"]
             [Sample.mustBeString "phones.1.number"]
             eq_refl eq_refl eq_refl eq_refl
             (conj (conj eq_refl (conj eq_refl (conj eq_refl eq_refl)))
                   eq_refl)
             eq_refl eq_refl eq_refl).
  - destruct (documentValidate_nested_prefix Sample.env 2 Sample.misplaced
                (Some ["phones"]) "" true true [] [] "phones" phones
                eq_refl eq_refl
                (conj eq_refl (conj eq_refl (conj eq_refl eq_refl))))
      as [_ Hlist].
    destruct (Hlist eq_refl) as (_ & _ & Hpath).
    exact (Hpath 1 [VDoc "Phone" [("number", VStr "1")]]
             (VDoc "Phone" [("number", VUndefined)]) []
             (mkDoc "Phone" [("number", VUndefined)]) [] "number" []
             number
             (ValidationError [Sample.mustBeString "phones.1.number"]
                "must be a string")
             [] [] [TypeLevel "phones"] [] [TypeLevel "phones.0.number"] []
             [] []
             eq_refl eq_refl eq_refl eq_refl eq_refl eq_refl
             (conj (conj eq_refl (conj eq_refl (conj eq_refl eq_refl)))
                   eq_refl)
             eq_refl eq_refl eq_refl).
Defined.

End ValidationProperties.


(* ================================================================== *)
(** * Part V — further properties of the Fields module                 *)
(* ================================================================== *)

Module FieldsMore.
Import Fields FieldsProperties.

(** ** get *)

Lemma get_many_from this names k :
  forall acc,
    lookup
      (fold_left
         (fun values fieldName =>
            let value0 := get this fieldName in
            if (fieldName =? "_id") && negb (truthy value0) then values
            else assign fieldName value0 values)
         names acc) k
    = if contains names k && (negb (k =? "_id") || truthy (get this k))
      then Some (get this k)
      else lookup acc k.
Proof.
  induction names as [|n r IH]; intros acc; cbn [fold_left].
  - reflexivity.
  - rewrite IH. unfold contains. cbn [existsb].
    destruct (String.eqb_spec k n) as [Heq|Hne]; [subst n|]; cbn [orb andb].
    + destruct (String.eqb_spec k "_id") as [Hid|Hid]; [subst k|];
        cbn [negb andb orb].
      * destruct (truthy (get this "_id")) eqn:Ht; cbn [negb andb].
        -- rewrite lookup_assign_eq. now destruct (existsb _ r).
        -- now rewrite Bool.andb_false_r.
      * rewrite lookup_assign_eq. now destruct (existsb _ r).
    + destruct (existsb (String.eqb k) r
                && (negb (k =? "_id") || truthy (get this k)));
        [reflexivity|].
      destruct ((n =? "_id") && negb (truthy (get this n)));
        [reflexivity|].
      apply lookup_assign_neq. exact Hne.
Qed.

(** X1 — [get([names])] holds, for each listed name, what [get(name)]
    returns, and nothing else; the one exception is ['_id'], which is left
    out of the object altogether while [get('_id')] is not truthy. *)
Theorem get_many_lookup (this : instance) (names : list string) (k : string) :
  lookup (get_many this names) k
  = if contains names k && (negb (k =? "_id") || truthy (get this k))
    then Some (get this k)
    else None.
Proof. unfold get_many. now rewrite get_many_from. Qed.

(** ** set *)

Section SetMore.

Variable convert : value -> ftype -> result value.

(** X2 — [set] writes nothing but the entry of its field in the modified
    mapping: the identity, the class, the values mapping and the other own
    properties of the document are left as they were, and so are the pending
    modifications of every other field. *)
Theorem set_only_touches_its_modified_entry
  (this this' : instance) (fieldName : string) (v : value) :
  set convert this fieldName v = Return this' ->
  oid this' = oid this /\ schema this' = schema this
  /\ _values this' = _values this /\ own this' = own this
  /\ forall k, k <> fieldName ->
               lookup (_modified this') k = lookup (_modified this) k.
Proof.
  unfold Fields.set.
  destruct ((fieldName =? "_id") && truthy (prop (_values this) fieldName)).
  { intros [= <-]. auto. }
  destruct (castThroughChain convert (schema this) fieldName v) as [cv|e];
    [|discriminate].
  destruct (truthy (prop (_values this) fieldName)
            && strict_eq cv (prop (_values this) fieldName)).
  { intros [= <-]. auto. }
  intros [= <-]. simpl. repeat split; try reflexivity.
  intros k Hk. now apply lookup_assign_neq.
Qed.

Lemma assign_twice {A : Type} (o : list (string * A)) k (x : A) :
  assign k x (assign k x o) = assign k x o.
Proof. apply assign_same, lookup_assign_eq. Qed.

(** X3 — [set] is idempotent: repeating a [set] that returned changes
    nothing more. *)
Theorem set_twice_is_set_once
  (this this' : instance) (fieldName : string) (v : value) :
  set convert this fieldName v = Return this' ->
  set convert this' fieldName v = Return this'.
Proof.
  unfold Fields.set.
  destruct ((fieldName =? "_id") && truthy (prop (_values this) fieldName))
    eqn:Hid.
  { intros [= <-]. now rewrite Hid. }
  destruct (castThroughChain convert (schema this) fieldName v) as [cv|e]
    eqn:Hcast; [|discriminate].
  destruct (truthy (prop (_values this) fieldName)
            && strict_eq cv (prop (_values this) fieldName)) eqn:Hsame.
  { intros [= <-]. now rewrite Hid, Hcast, Hsame. }
  intros [= <-]. simpl. rewrite Hid, Hcast, Hsame.
  unfold with_modified. simpl. now rewrite assign_twice.
Qed.

(** X4 — [set] then [get], for a field other than ['_id'] whose cast
    returns [cv]: when the values mapping holds no truthy entry identical to
    [cv], the write is recorded and [get] returns [cv]; when it does, the
    write is dropped and the document is left as it was, so that a different
    modification pending for the field stays in force (a field cannot be set
    back to its stored value). *)
Theorem set_then_get
  (this : instance) (fieldName : string) (v cv : value) :
  fieldName <> "_id" ->
  castThroughChain convert (schema this) fieldName v = Return cv ->
  (truthy (prop (_values this) fieldName)
   && strict_eq cv (prop (_values this) fieldName) = false ->
   exists this', set convert this fieldName v = Return this'
                 /\ get this' fieldName = cv)
  /\ (truthy (prop (_values this) fieldName)
      && strict_eq cv (prop (_values this) fieldName) = true ->
      set convert this fieldName v = Return this
      /\ forall pending, lookup (_modified this) fieldName = Some pending ->
                         get this fieldName = pending).
Proof.
  intros Hid Hcast.
  assert (Hguard : (fieldName =? "_id")
                   && truthy (prop (_values this) fieldName) = false).
  { destruct (String.eqb_spec fieldName "_id"); [contradiction|reflexivity]. }
  split; intros Hsame.
  - eexists. split.
    + unfold Fields.set. rewrite Hguard, Hcast, Hsame. reflexivity.
    + unfold get. apply String.eqb_neq in Hid. rewrite Hid. simpl.
      unfold has, prop. now rewrite lookup_assign_eq.
  - split.
    + unfold Fields.set. now rewrite Hguard, Hcast, Hsame.
    + intros pending Hp. unfold get. apply String.eqb_neq in Hid.
      rewrite Hid. simpl. unfold has, prop. now rewrite Hp.
Qed.

(** X5 — The cast of [set] is the composition of the casts of all the
    classes of the chain that declare the field with a type, the class of
    the document first: a field declared nowhere, or without a type, goes
    through uncast, and the type of an ancestor is applied even to a field
    the class overrides. *)
Theorem castThroughChain_casts_by_every_class
  (s : Schema) (fieldName : string) (v : value) :
  castThroughChain convert s fieldName v
  = castAll convert (declaredTypes s fieldName) v.
Proof.
  revert v. unfold declaredTypes.
  induction s as [n fs | n fs parent IH] using Schema_chain_ind; intros v;
    cbn [castThroughChain ancestry flat_map];
    destruct (getField _ fieldName) as [fd|]; try destruct (type fd);
    cbn [app castAll]; rewrite ?app_nil_r;
    try destruct (convert v f); cbn [castAll]; auto.
Qed.

End SetMore.

Lemma set_only_touches_its_modified_entry_witness :
  exists this',
    set Sample.alreadyTyped Sample.edited "votes" (VNum 3) = Return this'
    /\ _values this' = _values Sample.edited
    /\ lookup (_modified this') "title" = Some (VStr "x")
    /\ lookup (_modified this') "votes" = Some (VNum 3).
Proof.
  eexists. split; [reflexivity|].
  destruct (set_only_touches_its_modified_entry Sample.alreadyTyped
              Sample.edited _ "votes" (VNum 3) eq_refl)
    as (_ & _ & Hvalues & _ & Hothers).
  split; [exact Hvalues|]. split; [|reflexivity].
  rewrite (Hothers "title") by discriminate. reflexivity.
Defined.

Lemma set_twice_is_set_once_witness :
  exists this',
    set Sample.alreadyTyped Sample.stored "title" (VStr "Bye") = Return this'
    /\ set Sample.alreadyTyped this' "title" (VStr "Bye") = Return this'.
Proof.
  eexists. split; [reflexivity|].
  apply (set_twice_is_set_once Sample.alreadyTyped Sample.stored).
  reflexivity.
Defined.

Lemma set_then_get_witness :
  (exists this',
      set Sample.alreadyTyped Sample.stored "title" (VStr "Bye") = Return this'
      /\ get this' "title" = VStr "Bye")
  /\ set Sample.alreadyTyped Sample.revised "title" (VStr "Hello")
     = Return Sample.revised
  /\ get Sample.revised "title" = VStr "Bye".
Proof.
  split.
  - apply (set_then_get Sample.alreadyTyped Sample.stored "title"
             (VStr "Bye") (VStr "Bye") ltac:(discriminate) eq_refl).
    reflexivity.
  - destruct (set_then_get Sample.alreadyTyped Sample.revised "title"
                (VStr "Hello") (VStr "Hello") ltac:(discriminate) eq_refl)
      as [_ Hdropped].
    destruct (Hdropped eq_refl) as [Hset Hget].
    split; [exact Hset | exact (Hget (VStr "Bye") eq_refl)].
Defined.

(** ** getModified *)

Lemma lookup_entries (o : object) k :
  lookup (entries o) k = option_map EValue (lookup o k).
Proof.
  unfold entries. induction o as [|[k' x] r IH]; simpl; [reflexivity|].
  now destruct (k' =? k).
Qed.

Lemma pick_lookup_in {A : Type} (inherited src : list (string * A))
  (ks : list string) k :
  lookup (pick inherited src ks) k
  = if contains ks k
    then match lookup src k with
         | Some x => Some x
         | None => lookup inherited k
         end
    else None.
Proof.
  unfold pick.
  assert (H : forall acc,
             lookup
               (fold_left
                  (fun copy k0 =>
                     match lookup src k0 with
                     | Some x => assign k0 x copy
                     | None =>
                         match lookup inherited k0 with
                         | Some x => assign k0 x copy
                         | None => copy
                         end
                     end) ks acc) k
             = if contains ks k
               then match lookup src k with
                    | Some x => Some x
                    | None =>
                        match lookup inherited k with
                        | Some x => Some x
                        | None => lookup acc k
                        end
                    end
               else lookup acc k).
  { induction ks as [|k0 r IH]; intros acc; cbn [fold_left].
    - reflexivity.
    - rewrite IH. unfold contains. cbn [existsb].
      destruct (String.eqb_spec k k0) as [Heq|Hne]; [subst k0|]; cbn [orb].
      + destruct (lookup src k) as [x|] eqn:Hk;
          [|destruct (lookup inherited k) as [x|] eqn:Hi];
          rewrite ?lookup_assign_eq; now destruct (existsb _ r).
      + destruct (lookup src k0) as [x0|];
          [|destruct (lookup inherited k0) as [x0|]];
          rewrite ?lookup_assign_neq by exact Hne; reflexivity. }
  rewrite H. simpl.
  now destruct (lookup src k), (lookup inherited k), (contains ks k).
Qed.


Lemma contains_keys {A : Type} (o : list (string * A)) k :
  contains (keys o) k = has o k.
Proof.
  destruct (has o k) eqn:Hh.
  - apply contains_In. now apply has_In_keys.
  - destruct (contains (keys o) k) eqn:Hc; [|reflexivity].
    apply contains_In, has_In_keys in Hc. congruence.
Qed.

Lemma contains_difference (ks others : list string) k :
  contains (difference ks others) k
  = contains ks k && negb (contains others k).
Proof.
  unfold difference. destruct (contains (filter _ ks) k) eqn:Hc.
  - apply contains_In, filter_In in Hc. destruct Hc as [Hin Hn].
    apply contains_In in Hin. now rewrite Hin, Hn.
  - destruct (contains ks k) eqn:Hk; [|reflexivity].
    destruct (contains others k) eqn:Ho; [reflexivity|]. exfalso.
    apply contains_In in Hk.
    assert (H : In k (filter (fun k0 => negb (contains others k0)) ks)).
    { apply filter_In. split; [exact Hk | now rewrite Ho]. }
    apply contains_In in H. congruence.
Qed.

Lemma fill_missing_from (s : Schema) (missingKeys : list string) k :
  forall oldValues,
    lookup
      (fold_left
         (fun oldValues missingKey =>
            match fieldFromChain s missingKey with
            | Some value0 => assign missingKey (EField value0) oldValues
            | None => oldValues
            end)
         missingKeys oldValues) k
    = if contains missingKeys k
      then match fieldFromChain s k with
           | Some fd => Some (EField fd)
           | None => lookup oldValues k
           end
      else lookup oldValues k.
Proof.
  induction missingKeys as [|m r IH]; intros oldValues; cbn [fold_left].
  - reflexivity.
  - rewrite IH. unfold contains. cbn [existsb].
    destruct (String.eqb_spec k m) as [Heq|Hne]; [subst m|]; cbn [orb].
    + destruct (fieldFromChain s k) as [fd|] eqn:Hfd;
        rewrite ?lookup_assign_eq; now destruct (existsb _ r).
    + destruct (fieldFromChain s m) as [fd|];
        [rewrite lookup_assign_neq by exact Hne|]; reflexivity.
Qed.

(** X6 — [getModified(true)] has an entry for the modified keys only.  For
    a key with [key in this._values] it is what [this._values[key]] gives:
    the property of the values mapping, or else the member of
    [Object.prototype] of that name (so that after [set('toString', x)] the
    old value reported is the built-in function).  For any other modified
    key it is what [schema.getField] returns in the first class of the chain
    that declares the key, and there is no entry at all when no class
    does. *)
Theorem getModified_old_lookup (this : instance) (k : string) :
  lookup (getModified this true) k
  = if has (_modified this) k then
      match lookup (_values this) k with
      | Some v => Some (EValue v)
      | None =>
          if contains objectPrototype k then Some (EMember k)
          else option_map EField (fieldFromChain (schema this) k)
      end
    else None.
Proof.
  unfold getModified.
  set (modifiedKeys := keys (_modified this)).
  set (picked := pick inheritedEntries (entries (_values this)) modifiedKeys).
  assert (Hpicked : lookup picked k
                    = if has (_modified this) k
                      then match lookup (_values this) k with
                           | Some v => Some (EValue v)
                           | None =>
                               if contains objectPrototype k
                               then Some (EMember k) else None
                           end
                      else None).
  { unfold picked, modifiedKeys.
    rewrite pick_lookup_in, contains_keys, lookup_entries,
      lookup_inheritedEntries.
    now destruct (lookup (_values this) k). }
  destruct (Nat.eqb_spec (length modifiedKeys) (length (keys picked)))
    as [Hlen|Hlen]; cbn [negb].
  - rewrite Hpicked. destruct (has (_modified this) k) eqn:Hh; [|reflexivity].
    destruct (lookup (_values this) k) as [x|] eqn:Hv; [reflexivity|].
    destruct (contains objectPrototype k) eqn:Hproto; [reflexivity|].
    exfalso.
    destruct (pick_keys inheritedEntries (entries (_values this))
                modifiedKeys) as [Hnd Hsub].
    fold picked in Hnd, Hsub.
    assert (Hk : In k modifiedKeys) by now apply has_In_keys.
    assert (Hnk : ~ In k (keys picked)).
    { intros H. apply In_keys_lookup in H. destruct H as [? H]. congruence. }
    assert (Hle : length (k :: keys picked) <= length modifiedKeys).
    { apply NoDup_incl_length; [now constructor|].
      intros y [<-|Hy]; [exact Hk | now apply Hsub]. }
    simpl in Hle. lia.
  - rewrite fill_missing_from, contains_difference, Hpicked.
    unfold modifiedKeys. rewrite !contains_keys.
    destruct (has (_modified this) k) eqn:Hh; [|reflexivity].
    unfold has at 1. rewrite Hpicked. cbn [andb].
    destruct (lookup (_values this) k) as [x|]; [reflexivity|].
    destruct (contains objectPrototype k); [reflexivity|].
    cbn [negb]. now destruct (fieldFromChain (schema this) k).
Qed.

(** After [set('toString', "x")] on a new document, the old value
    reported for the key is the inherited member; after [set('title', "x")]
    on a new article, it is the definition of the field. *)
Lemma getModified_old_lookup_witness :
  (exists this,
      set Sample.alreadyTyped Sample.draft "toString" (VStr "x") = Return this
      /\ lookup (getModified this true) "toString"
         = Some (EMember "toString"))
  /\ lookup (getModified Sample.edited true) "title"
     = Some (EField (mkField (Some TString) (VStr "untitled")))
  /\ lookup (getModified Sample.edited true) "votes" = None.
Proof.
  split; [|split].
  - eexists. split; [reflexivity|].
    rewrite getModified_old_lookup. reflexivity.
  - rewrite getModified_old_lookup. reflexivity.
  - rewrite getModified_old_lookup. reflexivity.
Defined.

(** ** Classes and their new instances *)

Lemma addFields_lookup defs :
  NoDup (keys defs) ->
  forall fs k,
    lookup (addFields defs fs) k
    = match lookup defs k with
      | Some fd => Some fd
      | None => lookup fs k
      end.
Proof.
  unfold addFields, addField.
  induction defs as [|[k0 fd0] r IH]; intros Hnd fs k; cbn [fold_left].
  - reflexivity.
  - inversion Hnd as [|? ? Hnotin Hnd']; subst.
    rewrite IH by exact Hnd'. cbn [lookup fst snd].
    destruct (String.eqb_spec k0 k) as [Heq|Hne]; [subst k0|].
    + destruct (lookup r k) as [fd|] eqn:Hr.
      * apply lookup_In_keys in Hr. contradiction.
      * apply lookup_assign_eq.
    + destruct (lookup r k); [reflexivity|].
      apply lookup_assign_neq. congruence.
Qed.

(** X7 — A new instance of a class that has a parent and whose declaration
    names each field once: [get('_id')] returns nothing; [get('_type')]
    returns the name of the class unless the class redeclares the field; a
    field the class declares resolves to the default the class gives it,
    whatever its ancestors declare; any other field resolves as it does on a
    new instance of the parent. *)
Theorem new_child_instance_fields
  (className : string) (parent : Schema)
  (definition_fields : list (string * FieldDefinition)) (id id' : nat) :
  NoDup (keys definition_fields) ->
  let this :=
    initInstance id (initSchema className (Some parent) definition_fields)
      VUndefined in
  get this "_id" = VUndefined
  /\ (has definition_fields "_type" = false ->
      get this "_type" = VStr className)
  /\ (forall k fd,
         k <> "_id" -> lookup definition_fields k = Some fd ->
         get this k = default fd)
  /\ (forall k,
         k <> "_id" -> k <> "_type" -> has definition_fields k = false ->
         get this k = get (initInstance id' parent VUndefined) k).
Proof.
  intros Hnd this.
  assert (Hget : forall k, k <> "_id" ->
                   get this k
                   = defaultFromChain
                       (initSchema className (Some parent) definition_fields)
                       k).
  { intros k Hk. unfold get. apply String.eqb_neq in Hk. now rewrite Hk. }
  assert (Hfield : forall k,
             getField (initSchema className (Some parent) definition_fields) k
             = match lookup definition_fields k with
               | Some fd => Some fd
               | None =>
                   lookup [("_id", mkField (Some TString) VNull);
                           ("_type", mkField (Some TString) (VStr className))]
                          k
               end).
  { intros k. unfold initSchema, getField. simpl.
    now rewrite addFields_lookup. }
  split; [reflexivity|]. split; [|split].
  - intros Ht. rewrite Hget by discriminate. cbn [defaultFromChain initSchema].
    fold (initSchema className (Some parent) definition_fields).
    rewrite Hfield. apply has_false_lookup in Ht. now rewrite Ht.
  - intros k fd Hk Hfd. rewrite Hget by exact Hk.
    cbn [defaultFromChain initSchema].
    fold (initSchema className (Some parent) definition_fields).
    now rewrite Hfield, Hfd.
  - intros k Hid Htype Hk. rewrite Hget by exact Hid.
    cbn [defaultFromChain initSchema].
    fold (initSchema className (Some parent) definition_fields).
    rewrite Hfield. apply has_false_lookup in Hk. rewrite Hk. cbn [lookup].
    apply String.eqb_neq in Hid, Htype.
    rewrite (String.eqb_sym "_id" k), Hid, (String.eqb_sym "_type" k), Htype.
    unfold get. rewrite Hid. reflexivity.
Qed.

Lemma new_child_instance_fields_witness :
  let this := initInstance 4 Sample.Article VUndefined in
  get this "_id" = VUndefined
  /\ get this "_type" = VStr "Article"
  /\ get this "body" = VNull
  /\ get this "title" = VStr "untitled".
Proof.
  destruct (new_child_instance_fields "Article" Sample.Post
              [("body", mkField (Some TString) VNull)] 4 5
              ltac:(repeat constructor; simpl; tauto))
    as (Hid & Htype & Hown & Hinherited).
  split; [exact Hid|]. split; [exact (Htype eq_refl)|].
  split; [exact (Hown "body" _ ltac:(discriminate) eq_refl)|].
  refine (eq_trans (Hinherited "title" _ _ _) _);
    [discriminate | discriminate | reflexivity | reflexivity].
Defined.

(** ** clone *)






(** ** save, remove, reload *)



Lemma extendObject_lookup (source : object) :
  NoDup (keys source) ->
  forall destination k,
    lookup (extendObject destination source) k
    = match lookup source k with
      | Some v => Some v
      | None => lookup destination k
      end.
Proof.
  unfold extendObject.
  induction source as [|[k0 x0] r IH]; intros Hnd destination k;
    cbn [fold_left].
  - reflexivity.
  - inversion Hnd as [|? ? Hnotin Hnd']; subst.
    rewrite IH by exact Hnd'. cbn [lookup fst snd].
    destruct (String.eqb_spec k0 k) as [Heq|Hne]; [subst k0|].
    + destruct (lookup r k) as [x|] eqn:Hr.
      * apply lookup_In_keys in Hr. contradiction.
      * apply lookup_assign_eq.
    + destruct (lookup r k); [reflexivity|].
      apply lookup_assign_neq. congruence.
Qed.

Section StorageMore.

Variables store callback : Type.
Variable getCollection : Schema -> option (Collection store callback).
Variable triggerEvent : Schema -> string -> instance -> instance.
Variable getFieldsNames : Schema -> list string.



(** X11 — After a [save] that had something to send, whether it inserted or
    updated and whatever the handlers did: nothing is pending on the
    document any more, and every field that was sent reads back, through
    [get], as the value that was sent. *)
Theorem save_then_read_back
  (Coll : Collection store callback) (st : store) (this : instance)
  (cb : option callback) :
  getCollection (schema this) = Some Coll ->
  let update := truthy (prop (_values this) "_id") in
  let handled :=
    triggerEvent (schema this) (if update then "beforeUpdate" else "beforeInsert")
      (triggerEvent (schema this) "beforeSave" this) in
  let sent := valuesToSave getFieldsNames (schema this) handled update in
  sent <> [] ->
  exists after,
    save getCollection triggerEvent getFieldsNames st this cb = Return after
    /\ _modified (document after) = []
    /\ forall k v, k <> "_id" -> lookup sent k = Some v ->
                   get (document after) k = v.
Proof.
  intros HC update handled sent Hsent.
  assert (Hnd : NoDup (keys sent)).
  { unfold sent, valuesToSave. apply pick_keys. }
  unfold Fields.save. rewrite HC. fold update.
  assert (Hh : (if update
                then triggerEvent (schema this) "beforeUpdate"
                       (triggerEvent (schema this) "beforeSave" this)
                else triggerEvent (schema this) "beforeInsert"
                       (triggerEvent (schema this) "beforeSave" this))
               = handled).
  { unfold handled. now destruct update. }
  rewrite Hh. fold sent.
  destruct sent as [|kv r] eqn:Hs; [contradiction|].
  cbn [length Nat.eqb]. rewrite <- Hs in *.
  set (written :=
         if update
         then (let '(st', result) :=
                 collUpdate Coll st (prop (_values handled) "_id") sent cb in
               (st', result, handled))
         else (let '(st', result) := collInsert Coll st sent cb in
               (st', result,
                with_values handled (assign "_id" result (_values handled))))).
  destruct written as [[st' result] this1].
  eexists. split; [reflexivity|]. cbn [document _modified with_modified].
  split; [reflexivity|].
  intros k v Hk Hv. unfold get. apply String.eqb_neq in Hk. rewrite Hk.
  cbn [andb has lookup _modified _values with_modified with_values].
  unfold has, prop. rewrite extendObject_lookup by exact Hnd.
  now rewrite Hv.
Qed.

Hypothesis no_handler : forall s event this, triggerEvent s event this = this.




End StorageMore.



Lemma save_then_read_back_witness :
  exists after,
    save Shelf.collectionOf Shelf.noHandler Shelf.namesOf []
      Sample.draft None = Return after
    /\ collections after
       = [Shelf.Inserted [("title", VStr "untitled"); ("votes", VNum 0)]]
    /\ _modified (document after) = []
    /\ get (document after) "title" = VStr "untitled"
    /\ get (document after) "_id" = VStr "p7".
Proof.
  destruct (save_then_read_back (list Shelf.call) unit
              Shelf.collectionOf Shelf.noHandler Shelf.namesOf Shelf.posts
              [] Sample.draft None eq_refl ltac:(discriminate))
    as (after & Hsave & Hclean & Hread).
  exists after. split; [exact Hsave|].
  split; [injection Hsave as <-; reflexivity|].
  split; [exact Hclean|].
  split; [exact (Hread "title" _ ltac:(discriminate) eq_refl)|].
  injection Hsave as <-. reflexivity.
Defined.


Section StorageRemoval.

Variables store callback : Type.
Variable getCollection : Schema -> option (Collection store callback).
Variable triggerEvent : Schema -> string -> instance -> instance.

(** X13 — Removing twice removes once.  When the handlers leave the class of
    a document alone, a [remove] that returned leaves a document without id
    ([get('_id')] returns nothing), on which a second [remove] returns
    nothing and makes no call on the collection. *)
Theorem remove_twice_removes_once
  (st : store) (this : instance) (cb cb' : option callback)
  (after : outcome store) :
  (forall s event d, schema (triggerEvent s event d) = schema d) ->
  remove getCollection triggerEvent st this cb = Return after ->
  get (document after) "_id" = VUndefined
  /\ remove getCollection triggerEvent (collections after) (document after)
       cb'
     = Return (mkOutcome (collections after) (document after) VUndefined).
Proof.
  intros Hclass. unfold Fields.remove.
  destruct (getCollection (schema this)) as [Coll|] eqn:HC; [|discriminate].
  destruct (truthy (prop (_values this) "_id")) eqn:Hid; cbn [negb].
  - destruct (collRemove Coll st _ cb) as [st' result].
    intros [= <-]. cbn [document collections schema with_values].
    rewrite !Hclass, HC.
    assert (Hnull : prop (assign "_id" VNull
                            (_values
                               (triggerEvent (schema this) "afterRemove"
                                  (triggerEvent (schema this) "beforeRemove"
                                     this)))) "_id" = VNull).
    { unfold prop. now rewrite lookup_assign_eq. }
    cbn [_values with_values]. rewrite Hnull. split; [|reflexivity].
    unfold get. cbn [_values with_values]. now rewrite Hnull.
  - intros [= <-]. cbn [document collections]. rewrite HC, Hid.
    split; [|reflexivity]. unfold get. now rewrite Hid.
Qed.

(** X14 — [reload] forgets what [set] did: on a document that has an id,
    reloading after a [set] gives exactly what reloading before it gives. *)
Theorem set_then_reload
  (convert : value -> ftype -> result value)
  (st : store) (this this' : instance) (fieldName : string) (v : value) :
  truthy (prop (_values this) "_id") = true ->
  set convert this fieldName v = Return this' ->
  reload getCollection st this' = reload getCollection st this.
Proof.
  intros Hid. unfold Fields.set.
  destruct ((fieldName =? "_id") && truthy (prop (_values this) fieldName)).
  { now intros [= <-]. }
  destruct (castThroughChain convert (schema this) fieldName v) as [cv|e];
    [|discriminate].
  destruct (truthy (prop (_values this) fieldName)
            && strict_eq cv (prop (_values this) fieldName)).
  { now intros [= <-]. }
  intros [= <-]. unfold reload. cbn [schema _values with_modified].
  destruct (getCollection (schema this)); [|reflexivity].
  now rewrite Hid.
Qed.

End StorageRemoval.

Lemma remove_twice_removes_once_witness :
  exists after,
    remove Shelf.collectionOf Shelf.noHandler [] Sample.stored None
    = Return after
    /\ collections after = [Shelf.Removed (VStr "p1")]
    /\ get (document after) "_id" = VUndefined
    /\ remove Shelf.collectionOf Shelf.noHandler (collections after)
         (document after) None
       = Return (mkOutcome (collections after) (document after) VUndefined).
Proof.
  eexists. split; [reflexivity|]. split; [reflexivity|].
  apply (remove_twice_removes_once (list Shelf.call) unit Shelf.collectionOf
           Shelf.noHandler [] Sample.stored None None _
           (fun _ _ _ => eq_refl) eq_refl).
Defined.

Lemma set_then_reload_witness :
  exists this',
    set Sample.alreadyTyped Sample.stored "title" (VStr "Bye") = Return this'
    /\ get this' "title" = VStr "Bye"
    /\ reload Shelf.collectionOf [] this'
       = reload Shelf.collectionOf [] Sample.stored.
Proof.
  eexists. split; [reflexivity|]. split; [reflexivity|].
  apply (set_then_reload (list Shelf.call) unit Shelf.collectionOf
           Sample.alreadyTyped [] Sample.stored _ "title" (VStr "Bye")
           eq_refl eq_refl).
Defined.

End FieldsMore.


(* ================================================================== *)
(** * Part VI — further properties of the validation cascade           *)
(* ================================================================== *)

Module ValidationMore.
Import Validation ValidationProperties.

(** ** What collect mode throws *)

(** X15 — Without [stopOnFirstError], the only validation error
    [documentValidate] throws is its own report: it carries at least one
    detail, and its reason is the message of the first one.  (A validation
    error that a validator throws with no detail is therefore swallowed.) *)
Theorem collect_mode_throws_its_report
  (E : Env) (fuel : nat) (o : options) (t : list event)
  (ds : list detail) (reason : string) :
  stopOnFirstError o = false ->
  documentValidate E fuel o = (t, Throws (ValidationError ds reason)) ->
  exists first rest, ds = first :: rest /\ reason = message first.
Proof.
  intros Hmode. destruct fuel as [|fuel]; cbn [documentValidate];
    [discriminate|].
  unfold documentValidateBody. rewrite Hmode.
  destruct (negb (simulation o) && negb (isServer E)); [discriminate|].
  set (walk := forEach _ _ []).
  assert (Hwalk : noValidationError walk).
  { apply forEach_noValidationError. intros n s.
    apply validateName_collect_noValidationError. }
  destruct walk as [tw [errors|err|]] eqn:Hw; cbn [bind].
  - destruct errors as [|first rest]; cbn [report ret throw].
    + discriminate.
    + intros [= _ <- <-]. eauto.
  - intros [= -> ->]. exfalso. exact (Hwalk _ _ _ eq_refl).
  - discriminate.
Qed.

Lemma collect_mode_throws_its_report_witness :
  documentValidate Sample.env 3
    (mkOptions Sample.incomplete (Some ["name"; "email"]) "" false true)
  = ([TypeLevel "name"; TypeLevel "email"],
     Throws (ValidationError
               [Sample.mustBeString "name"; Sample.mustBeString "email"]
               "must be a string"))
  /\ exists first rest,
       [Sample.mustBeString "name"; Sample.mustBeString "email"]
       = first :: rest
       /\ "must be a string" = message first.
Proof.
  split; [reflexivity|].
  exact (collect_mode_throws_its_report Sample.env 3
           (mkOptions Sample.incomplete (Some ["name"; "email"]) "" false true)
           [TypeLevel "name"; TypeLevel "email"]
           [Sample.mustBeString "name"; Sample.mustBeString "email"]
           "must be a string" eq_refl eq_refl).
Defined.

(** ** A non-validation error ends the walk in both modes *)

(** X16 — Collect mode collects validation errors only: when the
    validation of a field throws anything else, [documentValidate] throws
    that error at once, makes no call for the fields after it, and the
    validation errors collected from the fields before it are not
    reported. *)
Theorem collect_mode_rethrows_other_errors
  (E : Env) (fuel : nat) (d : document) (fs1 fs2 : list string) (f : string)
  (p : string) (sim : bool) (t : list event) (what : string) :
  sim || isServer E = true ->
  let step n :=
    validateName E (documentValidate E fuel) (docClass d) (castNested E d)
      p false sim n [] in
  (forall n, In n fs1 -> exists tn ds, step n = (tn, Returns ds)) ->
  step f = (t, Throws (OtherError what)) ->
  documentValidate E (S fuel)
    (mkOptions d (Some (fs1 ++ f :: fs2)%list) p false sim)
  = ((flat_map (fun n => fst (step n)) fs1 ++ t)%list,
     Throws (OtherError what)).
Proof.
  intros Hruns step Hbefore Hthrow.
  enter_documentValidate Hruns.
  rewrite forEach_app.
  rewrite forEach_collects;
    [| intros n; apply validateName_accumulates | exact Hbefore].
  cbn [bind forEach app].
  rewrite (validateName_accumulates E _ _ _ _ _ _ f _).
  fold (step f). rewrite Hthrow. reflexivity.
Qed.

Lemma collect_mode_rethrows_other_errors_witness :
  documentValidate Sample.unregisteredEnv 3
    (mkOptions Sample.noEmail (Some ["email"; "name"; "nickname"]) ""
       false true)
  = ([TypeLevel "email"; TypeLevel "name"],
     Throws (OtherError "validationFunction is not a function")).
Proof.
  apply (collect_mode_rethrows_other_errors Sample.unregisteredEnv 2
           Sample.noEmail ["email"] ["nickname"] "name" "" true
           [TypeLevel "name"] "validationFunction is not a function"
           eq_refl).
  - intros n [<-|[]]. do 2 eexists. reflexivity.
  - reflexivity.
Defined.

(** ** Paths *)

(** X17 — Whatever the document, the fields and the depth of the nesting,
    every validator [documentValidate] calls (type-level or registered,
    directly, in a nested document, or through a nested-field pattern) is
    given a name that starts with the path prefix of the call. *)
Theorem every_validator_name_starts_with_the_prefix
  (E : Env) (fuel : nat) (o : options) (e : event) :
  In e (fst (documentValidate E fuel o)) ->
  exists rest, eventName e = (prefix o ++ rest)%string.
Proof.
  intros Hin. pose proof (documentValidate_tracedUnder E fuel o) as H.
  unfold tracedUnder in H. rewrite Forall_forall in H. exact (H e Hin).
Qed.

Lemma every_validator_name_starts_with_the_prefix_witness :
  exists rest,
    eventName (TypeLevel "profile.phones.1.number")
    = ("profile." ++ rest)%string.
Proof.
  apply (every_validator_name_starts_with_the_prefix Sample.env 3
           (mkOptions Sample.misplaced None "profile." false true)).
  simpl. tauto.
Defined.

(** ** Nested-field patterns *)

Lemma length_append (a b : string) :
  String.length (a ++ b) = String.length a + String.length b.
Proof. induction a as [|c a IH]; simpl; [reflexivity | now rewrite IH]. Qed.

Lemma substring_all (a : string) : String.substring 0 (String.length a) a = a.
Proof. induction a as [|c a IH]; simpl; [reflexivity | now rewrite IH]. Qed.

Lemma substring_head (a b : string) :
  String.substring 0 (String.length a) (a ++ b) = a.
Proof.
  induction a as [|c a IH]; simpl; [now destruct b | now rewrite IH].
Qed.

Lemma substring_tail (a b : string) :
  String.substring (String.length a) (String.length b) (a ++ b) = b.
Proof. induction a as [|c a IH]; simpl; [apply substring_all | exact IH]. Qed.

Lemma prefix_refl (a : string) : String.prefix a a = true.
Proof.
  induction a as [|c a IH]; simpl; [reflexivity|].
  destruct (Ascii.ascii_dec c c); [exact IH | contradiction].
Qed.

(** The path a nested-field pattern adds before the nested name. *)
Lemma pattern_path (base nestedName : string) :
  substr0 (base ++ nestedName) (lastIndexOf (base ++ nestedName) nestedName)
  = base.
Proof.
  unfold lastIndexOf. rewrite length_append.
  replace (String.length nestedName <=? String.length base
                                        + String.length nestedName)%nat
    with true by (symmetry; apply Nat.leb_le; lia).
  replace (String.length base + String.length nestedName
           - String.length nestedName) with (String.length base) by lia.
  assert (Hhere : lastIndexFrom (base ++ nestedName) nestedName
                    (String.length base) = Z.of_nat (String.length base)).
  { assert (Hp : String.prefix nestedName
                   (String.substring (String.length base)
                      (String.length (base ++ nestedName)
                       - String.length base) (base ++ nestedName)) = true).
    { rewrite length_append.
      replace (String.length base + String.length nestedName
               - String.length base) with (String.length nestedName) by lia.
      rewrite substring_tail. apply prefix_refl. }
    destruct (String.length base); cbn [lastIndexFrom]; now rewrite Hp. }
  rewrite Hhere. unfold substr0.
  destruct (Z.leb_spec (Z.of_nat (String.length base)) 0) as [Hz|Hz].
  - destruct base; [reflexivity | simpl in Hz; lia].
  - rewrite Nat2Z.id. apply substring_head.
Qed.

Lemma forEach_ext_in {X S : Type} (l : list X) (body body' : X -> S -> T S) :
  (forall x s, In x l -> body x s = body' x s) ->
  forall s, forEach l body s = forEach l body' s.
Proof.
  induction l as [|x r IH]; intros H s; cbn [forEach]; [reflexivity|].
  rewrite (H x s (or_introl eq_refl)). apply bind_ext. intros s'.
  apply IH. intros y s0 Hy. apply H. now right.
Qed.

(** X18 — For a nested-field pattern made of a path followed by the nested
    name that [traverse] calls back with, [documentValidate] validates, for
    each nested document [traverse] found, that one nested name with the
    prefix extended by the path, passing down both [stopOnFirstError] and
    [simulation]; the fields of the document itself are not looked at. *)
Theorem nested_pattern_validates_under_its_path
  (E : Env) (self : options -> T unit) (Class : string) (d : document)
  (p base nestedName : string) (stop sim : bool) (errors : list detail) :
  isNestedFieldName E (base ++ nestedName) = true ->
  (forall target, In target (traverse E d (base ++ nestedName)) ->
                  snd target = nestedName) ->
  validateName E self Class d p stop sim (base ++ nestedName) errors
  = forEach (traverse E d (base ++ nestedName))
      (fun target errors1 =>
         catchValidationError stop
           (self (mkOptions (fst target) (Some [nestedName]) (p ++ base)
                    stop sim))
           errors1)
      errors.
Proof.
  intros Hpattern Hnames. unfold validateName. rewrite Hpattern.
  apply forEach_ext_in. intros [nestedDoc nn] s Hin.
  specialize (Hnames _ Hin). cbn [snd fst] in *. subst nn.
  now rewrite pattern_path.
Qed.

Lemma nested_pattern_validates_under_its_path_witness :
  documentValidate Sample.patternEnv 3
    (mkOptions Sample.misplaced (Some ["address.city"]) "user." true true)
  = ([TypeLevel "user.address.city"],
     Throws (ValidationError [Sample.mustBeString "user.address.city"]
                             "must be a string")).
Proof.
  cbn [documentValidate]. unfold documentValidateBody.
  cbn [simulation fields doc prefix stopOnFirstError forEach negb andb
       isServer Sample.patternEnv castNested docClass Sample.misplaced].
  rewrite (nested_pattern_validates_under_its_path Sample.patternEnv _ "User"
             _ "user." "address." "city" true true []).
  - reflexivity.
  - reflexivity.
  - intros target [<-|[]]. reflexivity.
Defined.

(** ** The two modes compared *)

Lemma catch_stepsAgree (fs fc : T unit) :
  agrees fs fc ->
  stepsAgree (catchValidationError true fs) (catchValidationError false fc).
Proof.
  intros H errors. unfold agrees in H.
  destruct fs as [t [[]|[ds reason|what]|]]; cbn [catchValidationError stepAgrees].
  - now rewrite H.
  - destruct fc as [tc [[]|[ds' reason'|what']|]];
      cbn [snd catchValidationError] in *; auto.
    + subst ds. exists []. now rewrite !app_nil_r.
    + destruct H as [more ->]. now exists more.
  - exact I.
  - exact I.
Qed.

Lemma agrees_refl (m : T unit) : agrees m m.
Proof.
  destruct m as [t [[]|[ds reason|what]|]]; cbn [agrees snd]; auto.
  exists []. now rewrite app_nil_r.
Qed.

Lemma ret_stepsAgree : stepsAgree ret ret.
Proof. intros errors. reflexivity. Qed.

Lemma bind_stepsAgree (ks1 kc1 ks2 kc2 : list detail -> T (list detail)) :
  stepsAgree ks1 kc1 -> stepsAgree ks2 kc2 ->
  collectsNothing (ks1 []) -> accumulates kc2 ->
  stepsAgree (fun errors => bind (ks1 errors) ks2)
             (fun errors => bind (kc1 errors) kc2).
Proof.
  intros H1 H2 Hnothing Hacc errors.
  specialize (H1 errors). unfold stepAgrees in H1.
  destruct (ks1 []) as [t [es|[ds reason|what]|]] eqn:Hs1; cbn [bind].
  - rewrite (Hnothing t es eq_refl), H1. cbn [bind].
    specialize (H2 errors). unfold stepAgrees in H2.
    destruct (ks2 []) as [t2 [es2|[ds2 reason2|what2]|]];
      cbn [stepAgrees]; try exact I.
    + now rewrite H2.
    + destruct (kc2 errors) as [tc2 rc2]. exact H2.
  - cbn [stepAgrees].
    destruct (kc1 errors) as [tc [es'|err|]]; cbn [snd bind] in *;
      try exact I.
    destruct H1 as [more ->]. rewrite (Hacc (errors ++ ds ++ more)%list).
    destruct (kc2 []) as [tc2 [es2|err2|]]; cbn [after snd]; try exact I.
    exists (more ++ es2)%list. now rewrite <- !app_assoc.
  - exact I.
  - exact I.
Qed.

Lemma forEach_stepsAgree {X : Type} (l : list X)
  (bs bc : X -> list detail -> T (list detail)) :
  (forall x, stepsAgree (bs x) (bc x)) ->
  (forall x, collectsNothing (bs x [])) ->
  (forall x, accumulates (bc x)) ->
  stepsAgree (forEach l bs) (forEach l bc).
Proof.
  intros H Hn Ha. induction l as [|x r IH].
  - exact ret_stepsAgree.
  - apply (bind_stepsAgree (bs x) (bc x) (forEach r bs) (forEach r bc));
      auto using forEach_accumulates.
Qed.

Lemma validateName_stepsAgree E (self : options -> T unit) Class d p sim n :
  (forall d0 f0 p0 sim0,
      agrees (self (mkOptions d0 f0 p0 true sim0))
             (self (mkOptions d0 f0 p0 false sim0))) ->
  stepsAgree (validateName E self Class d p true sim n)
             (validateName E self Class d p false sim n).
Proof.
  intros Hself. unfold validateName.
  destruct (isNestedFieldName E n).
  { apply forEach_stepsAgree.
    - intros [nestedDoc nestedName]. apply catch_stepsAgree, Hself.
    - intros [nestedDoc nestedName]. apply catch_stop_collectsNothing.
    - intros [nestedDoc nestedName]. apply catch_accumulates. }
  destruct (getField E Class n) as [field|]; [|exact ret_stepsAgree].
  destruct (transient field); [exact ret_stepsAgree|].
  destruct (getOptional field d && isNil (get E d n));
    [exact ret_stepsAgree|].
  apply (bind_stepsAgree
           (catchValidationError true
              (fieldValidation E Class d p n field (get E d n)))
           (catchValidationError false
              (fieldValidation E Class d p n field (get E d n)))).
  - apply catch_stepsAgree, agrees_refl.
  - destruct (kind field) as [| |[|]]; try exact ret_stepsAgree.
    + destruct (asDocument (get E d n)); [|exact ret_stepsAgree].
      apply catch_stepsAgree, Hself.
    + apply forEach_stepsAgree; intros [index element];
        destruct (asDocument element);
        auto using ret_stepsAgree, catch_stepsAgree,
                   catch_stop_collectsNothing, catch_accumulates,
                   ret_accumulates.
      intros t ds [= _ <-]. reflexivity.
  - apply catch_stop_collectsNothing.
  - destruct (kind field) as [| |[|]]; try apply ret_accumulates.
    + destruct (asDocument (get E d n));
        [apply catch_accumulates | apply ret_accumulates].
    + apply forEach_accumulates. intros [index element].
      destruct (asDocument element);
        [apply catch_accumulates | apply ret_accumulates].
Qed.

Lemma documentValidate_agrees E fuel :
  forall d f p sim,
    agrees (documentValidate E fuel (mkOptions d f p true sim))
           (documentValidate E fuel (mkOptions d f p false sim)).
Proof.
  induction fuel as [|fuel IH]; intros d f p sim; cbn [documentValidate].
  - exact I.
  - unfold documentValidateBody.
    cbn [simulation fields doc prefix stopOnFirstError].
    destruct (negb sim && negb (isServer E)); [reflexivity|].
    set (names := match f with
                  | Some fs => fs
                  | None => getValidationOrder E (docClass d)
                  end).
    pose proof (forEach_stepsAgree names
                  (validateName E (documentValidate E fuel) (docClass d)
                     (castNested E d) p true sim)
                  (validateName E (documentValidate E fuel) (docClass d)
                     (castNested E d) p false sim)
                  (fun n => validateName_stepsAgree E _ _ _ _ _ n IH)
                  (fun n => validateName_stop_collectsNothing _ _ _ _ _ _ n)
                  (fun n => validateName_accumulates _ _ _ _ _ _ _ n) [])
      as Hwalk.
    pose proof (forEach_collectsNothing names
                  (validateName E (documentValidate E fuel) (docClass d)
                     (castNested E d) p true sim)
                  (fun n => validateName_stop_collectsNothing _ _ _ _ _ _ n))
      as Hnothing.
    pose proof (forEach_noValidationError names
                  (validateName E (documentValidate E fuel) (docClass d)
                     (castNested E d) p false sim)
                  (fun n s =>
                     validateName_collect_noValidationError _ _ _ _ _ _ n s)
                  []) as Hnone.
    unfold stepAgrees in Hwalk.
    destruct (forEach names
                (validateName E (documentValidate E fuel) (docClass d)
                   (castNested E d) p true sim) [])
      as [t [es|[ds reason|what]|]] eqn:Hs; cbn [bind].
    + rewrite (Hnothing t es eq_refl), Hwalk. reflexivity.
    + cbn [agrees].
      destruct (forEach names
                  (validateName E (documentValidate E fuel) (docClass d)
                     (castNested E d) p false sim) [])
        as [tc [es'|[ds' reason'|what']|]] eqn:Hc; cbn [bind snd] in *;
        try exact I.
      * destruct Hwalk as [more ->]. cbn [app].
        destruct (ds ++ more)%list as [|first rest] eqn:Hall;
          cbn [report ret throw snd].
        -- now destruct ds.
        -- now exists more.
      * exfalso. exact (Hnone _ _ _ eq_refl).
    + exact I.
    + exact I.
Qed.

(** X19 — A document that passes with [stopOnFirstError] passes without it:
    when [documentValidate] returns in stop mode, the same call in collect
    mode returns too, after the very same validation calls. *)
Theorem valid_in_stop_mode_is_valid_in_collect_mode
  (E : Env) (fuel : nat) (d : document) (f : option (list string))
  (p : string) (sim : bool) (t : list event) :
  documentValidate E fuel (mkOptions d f p true sim) = (t, Returns tt) ->
  documentValidate E fuel (mkOptions d f p false sim) = (t, Returns tt).
Proof.
  intros Hstop. pose proof (documentValidate_agrees E fuel d f p sim) as H.
  rewrite Hstop in H. exact H.
Qed.

Lemma valid_in_stop_mode_is_valid_in_collect_mode_witness :
  documentValidate Sample.env 3
    (mkOptions Sample.complete None "" false true)
  = ([TypeLevel "name"; Validation "minLength" "name"; TypeLevel "email";
      TypeLevel "address"; TypeLevel "address.city"; TypeLevel "phones";
      TypeLevel "phones.0.number"],
     Returns tt).
Proof.
  apply (valid_in_stop_mode_is_valid_in_collect_mode Sample.env 3
           Sample.complete None "" true).
  reflexivity.
Defined.

(** X20 — The error [documentValidate] throws with [stopOnFirstError] is
    the first thing it reports without: when the stop-mode call throws a
    validation error, the list the collect-mode call throws begins with the
    details of that error (and the collect-mode call returns only if that
    error had no detail). *)
Theorem stop_mode_error_heads_the_collected_list
  (E : Env) (fuel : nat) (d : document) (f : option (list string))
  (p : string) (sim : bool) (t : list event) (ds : list detail)
  (reason : string) :
  documentValidate E fuel (mkOptions d f p true sim)
  = (t, Throws (ValidationError ds reason)) ->
  (forall tc ds' reason',
      documentValidate E fuel (mkOptions d f p false sim)
      = (tc, Throws (ValidationError ds' reason')) ->
      exists more, ds' = (ds ++ more)%list)
  /\ (forall tc,
         documentValidate E fuel (mkOptions d f p false sim)
         = (tc, Returns tt) ->
         ds = []).
Proof.
  intros Hstop. pose proof (documentValidate_agrees E fuel d f p sim) as H.
  rewrite Hstop in H. cbn [agrees] in H. split.
  - intros tc ds' reason' Hc. now rewrite Hc in H.
  - intros tc Hc. now rewrite Hc in H.
Qed.

Lemma stop_mode_error_heads_the_collected_list_witness :
  exists more,
    [Sample.mustBeString "address.city";
     Sample.mustBeString "phones.1.number"]
    = ([Sample.mustBeString "address.city"] ++ more)%list.
Proof.
  destruct (stop_mode_error_heads_the_collected_list Sample.env 3
              Sample.misplaced None "" true _ _ _ eq_refl) as [Hhead _].
  exact (Hhead _ _ _ eq_refl).
Defined.

End ValidationMore.
